(** * pdf2neo4j: text -> triples -> Cypher MERGE statements

    A shallow embedding of [src/pdf2neo4j.py] and the properties of its
    transform stage: the three regular-expression rules of
    [mock_nlp_to_triples], the string interpolation of
    [generate_cypher_query], and the control flow of
    [automated_kg_pipeline] over an explicit model of its collaborators
    (PDF reader, debug file, Neo4j session).

    A Python [str] is a sequence of Unicode code points: [str] below is
    [list N].  String literals of the source are written as UTF-8 text and
    decoded once by [u]. *)

From Stdlib Require Import List NArith Ascii String Bool Arith Lia Sorted.
Import ListNotations.

(* ------------------------------------------------------------------ *)
(** * Python strings as code point sequences *)

Module PyStr.

Definition cp := N.
Definition str := list cp.

Definition bytes_of (s : string) : list N :=
  map N_of_ascii (list_ascii_of_string s).

(** UTF-8 decoding of a source literal (well-formed input only; a truncated
    sequence ends the result). *)
Fixpoint utf8_decode (bs : list N) : str :=
  match bs with
  | [] => []
  | b :: rest =>
      if (b <? 128)%N then b :: utf8_decode rest
      else if (b <? 224)%N then
        match rest with
        | b1 :: r => ((b - 192) * 64 + (b1 - 128))%N :: utf8_decode r
        | _ => []
        end
      else if (b <? 240)%N then
        match rest with
        | b1 :: b2 :: r =>
            ((b - 224) * 4096 + (b1 - 128) * 64 + (b2 - 128))%N :: utf8_decode r
        | _ => []
        end
      else
        match rest with
        | b1 :: b2 :: b3 :: r =>
            ((b - 240) * 262144 + (b1 - 128) * 4096 + (b2 - 128) * 64
             + (b3 - 128))%N :: utf8_decode r
        | _ => []
        end
  end.

Definition u (s : string) : str := utf8_decode (bytes_of s).

Definition str_eqb (a b : str) : bool :=
  if list_eq_dec N.eq_dec a b then true else false.

(** [str.isspace] of one character: the code points whose Unicode general
    category is Zs or whose bidirectional class is WS, B or S. *)
Definition isspace (c : cp) : bool :=
  ((9 <=? c) && (c <=? 13) || (28 <=? c) && (c <=? 32)
   || (c =? 133) || (c =? 160) || (c =? 5760)
   || (8192 <=? c) && (c <=? 8202)
   || (c =? 8232) || (c =? 8233) || (c =? 8239) || (c =? 8287)
   || (c =? 12288))%N.

Fixpoint lstrip (s : str) : str :=
  match s with
  | [] => []
  | c :: s' => if isspace c then lstrip s' else s
  end.

Definition rstrip (s : str) : str := rev (lstrip (rev s)).

(** [s.strip()] *)
Definition strip (s : str) : str := rstrip (lstrip s).

(** [s.replace(old, new)] for a one-character [old]. *)
Fixpoint replace_char (old : cp) (new : str) (s : str) : str :=
  match s with
  | [] => []
  | c :: s' =>
      if (c =? old)%N then new ++ replace_char old new s'
      else c :: replace_char old new s'
  end.

(** [sep.join(parts)] *)
Fixpoint join (sep : str) (parts : list str) : str :=
  match parts with
  | [] => []
  | [p] => p
  | p :: ps => p ++ sep ++ join sep ps
  end.

(** [s.encode("utf-8")] succeeds: the text holds no lone surrogate
    (U+D800..U+DFFF), the only code points of a [str] that UTF-8 refuses. *)
Definition utf8_encodable (s : str) : bool :=
  forallb (fun c => negb ((55296 <=? c) && (c <=? 57343))%N) s.

End PyStr.
Import PyStr.

(* ------------------------------------------------------------------ *)
(** * The fragment of Python's [re] used by the rules *)

Module Re.

(** Character classes of the three patterns. *)
Inductive cclass :=
| Dot                      (* [.]   : anything but a line feed *)
| Word                     (* [\w]  : alphanumeric or underscore *)
| Range (lo hi : cp).      (* [[A-Z]] *)

(** Patterns: literal text, [c+?], [c{lo,hi}], concatenation, capture
    group.  Groups are numbered by the order of their opening parenthesis;
    the patterns of the program do not nest or repeat groups. *)
Inductive regex :=
| Str (l : str)
| LazyPlus (c : cclass)
| Greedy (c : cclass) (lo hi : nat)
| Cat (r1 r2 : regex)
| Group (r : regex).

(** A match in progress answers with the captures and the end offset. *)
Definition answer := (list str * nat)%type.

Section Matcher.

(** [str.isalnum] of one character.  Its table is the Unicode database of
    the Python runtime, not part of this program: the development is
    parametric in it. *)
Variable isalnum : cp -> bool.

Definition in_class (c : cclass) (x : cp) : bool :=
  match c with
  | Dot => negb (x =? 10)%N
  | Word => isalnum x || (x =? 95)%N
  | Range lo hi => ((lo <=? x) && (x <=? hi))%N
  end.

(** Literal text: consume [l] from the front of [s]. *)
Fixpoint eat (l s : str) : option str :=
  match l, s with
  | [], _ => Some s
  | _ :: _, [] => None
  | a :: l', b :: s' => if (a =? b)%N then eat l' s' else None
  end.

(** [c+?]: one character, then as few more as the rest of the pattern
    allows (the continuation is tried before a further character). *)
Fixpoint lazy_plus (p : cp -> bool) (k : nat -> str -> option answer)
    (pos : nat) (s : str) : option answer :=
  match s with
  | [] => None
  | x :: s' =>
      if p x then
        match k (S pos) s' with
        | Some a => Some a
        | None => lazy_plus p k (S pos) s'
        end
      else None
  end.

(** [c{lo,hi}]: as many characters as possible first, one fewer on
    backtracking, never fewer than [lo]. *)
Fixpoint greedy (p : cp -> bool) (lo hi : nat)
    (k : nat -> str -> option answer) (pos : nat) (s : str) : option answer :=
  let stop := match lo with O => k pos s | S _ => None end in
  match hi with
  | O => stop
  | S hi' =>
      let more :=
        match s with
        | x :: s' => if p x then greedy p (pred lo) hi' k (S pos) s' else None
        | [] => None
        end in
      match more with
      | Some a => Some a
      | None => stop
      end
  end.

(** Backtracking matcher in continuation-passing style: [pos] is the offset
    of [s] in the subject, [caps] the groups closed so far. *)
Fixpoint rmatch (r : regex) (k : nat -> str -> list str -> option answer)
    (pos : nat) (s : str) (caps : list str) : option answer :=
  match r with
  | Str l =>
      match eat l s with
      | Some s' => k (pos + List.length l) s' caps
      | None => None
      end
  | LazyPlus c => lazy_plus (in_class c) (fun p s' => k p s' caps) pos s
  | Greedy c lo hi => greedy (in_class c) lo hi (fun p s' => k p s' caps) pos s
  | Cat r1 r2 => rmatch r1 (fun p s' cs => rmatch r2 k p s' cs) pos s caps
  | Group r1 =>
      rmatch r1 (fun p s' cs => k p s' (cs ++ [firstn (p - pos) s])) pos s caps
  end.

(** [pattern.match(s)] at the front of [s]: the groups and the length of the
    match. *)
Definition match_at (r : regex) (s : str) : option answer :=
  rmatch r (fun p _ cs => Some (cs, p)) 0 s [].

(** The scan of [re.finditer]: try every offset from left to right, and
    resume after the end of each match ([skip] characters are still covered
    by the last match).  Each hit is the offset and the groups. *)
Fixpoint scan (r : regex) (pos skip : nat) (s : str) : list (nat * list str) :=
  match s with
  | [] =>
      match skip, match_at r [] with
      | O, Some (cs, _) => [(pos, cs)]
      | _, _ => []
      end
  | _ :: s' =>
      match skip with
      | S k => scan r (S pos) k s'
      | O =>
          match match_at r s with
          | Some (cs, n) => (pos, cs) :: scan r (S pos) (pred n) s'
          | None => scan r (S pos) 0 s'
          end
      end
  end.

Definition finditer (r : regex) (s : str) : list (nat * list str) :=
  scan r 0 0 s.

(** [re.findall(r, s)]: the groups of every match, in scan order. *)
Definition findall (r : regex) (s : str) : list (list str) :=
  map snd (finditer r s).

End Matcher.

End Re.
Import Re.

(* ------------------------------------------------------------------ *)
(** * Effects: printed messages, the debug file, the Neo4j session *)

Module Eff.

Inductive exn :=
| ValueError          (* tuple unpacking of a wrong arity *)
| TypeError           (* [None + str] *)
| OSError             (* [open] or the flush of the debug file *)
| UnicodeEncodeError  (* [f.write] of a text that UTF-8 cannot encode *)
| AttributeError.     (* reading an attribute the object does not have *)

Inductive result (A : Type) :=
| Ok (a : A)
| Raise (e : exn).
Arguments Ok {A} a.
Arguments Raise {A} e.

(** The [print] calls of the source, by call site, with the values they
    interpolate.  Standard output is taken to accept every message. *)
Inductive message :=
| MsgBanner                        (* "=" * 50 *)
| MsgPipelineStart (path : str)
| MsgPdfDone (path : str)
| MsgPdfError
| MsgNlpStart
| MsgNlpCount (n : nat)
| MsgNoRelations
| MsgQuerySaved
| MsgLoadStart
| MsgQueryError
| MsgQueryText (query : str)
| MsgInsertOk
| MsgNodes (n : N)
| MsgRelationships (n : N)
| MsgInsertFailed.

Inductive event :=
| Print (m : message)
| OpenFile (name : str)              (* [open(name, "w")]: created, emptied *)
| WriteFile (name content : str)     (* the content written and flushed *)
| SinkRun (query : str).

(** A computation: the events it performed, then its value or the
    exception that ended it. *)
Definition M (A : Type) : Type := (list event * result A)%type.

Definition ret {A} (a : A) : M A := ([], Ok a).
Definition raise {A} (e : exn) : M A := ([], Raise e).
Definition emit (e : event) : M unit := ([e], Ok tt).
Definition print (m : message) : M unit := emit (Print m).

Definition bind {A B} (m : M A) (f : A -> M B) : M B :=
  match m with
  | (tr, Ok a) => let '(tr', b) := f a in (tr ++ tr', b)
  | (tr, Raise e) => (tr, Raise e)
  end.

(** [try: m except Exception: h] *)
Definition try_except {A} (m : M A) (h : M A) : M A :=
  match m with
  | (tr, Ok a) => (tr, Ok a)
  | (tr, Raise _) => let '(tr', b) := h in (tr ++ tr', b)
  end.

Definition trace {A} (m : M A) : list event := fst m.
Definition outcome {A} (m : M A) : result A := snd m.

End Eff.
Import Eff.

Declare Scope eff_scope.
Delimit Scope eff_scope with eff.
Notation "x <- m ;; k" := (bind m (fun x => k))
  (at level 61, m at next level, right associativity) : eff_scope.
Notation "m1 ;;; m2" := (bind m1 (fun _ => m2))
  (at level 61, right associativity) : eff_scope.

(* ------------------------------------------------------------------ *)
(** * The program *)

Module Pdf2Neo4j.

Local Open Scope eff_scope.

(** A triple as the source has it: the 5-tuple
    (node 1 type, node 1 name, relation, node 2 type, node 2 name). *)
Definition Triple := (str * str * str * str * str)%type.

Definition n1_type (t : Triple) : str := let '(a, _, _, _, _) := t in a.
Definition n1_name (t : Triple) : str := let '(_, b, _, _, _) := t in b.
Definition relation (t : Triple) : str := let '(_, _, c, _, _) := t in c.
Definition n2_type (t : Triple) : str := let '(_, _, _, d, _) := t in d.
Definition n2_name (t : Triple) : str := let '(_, _, _, _, e) := t in e.

Definition Project : str := Eval cbv in u "Project".
Definition Technology : str := Eval cbv in u "Technology".
Definition Company : str := Eval cbv in u "Company".
Definition Industry : str := Eval cbv in u "Industry".
Definition USES_TECH : str := Eval cbv in u "USES_TECH".
Definition CONDUCTS : str := Eval cbv in u "CONDUCTS".
Definition BELONGS_TO : str := Eval cbv in u "BELONGS_TO".

Notation "r1 +++ r2" := (Cat r1 r2) (at level 60, right associativity).

Definition A_Z : cclass := Range 65%N 90%N.

(** r"(프로젝트 [A-Z]{1,3})은 (.+? 기술)을" *)
Definition re_project : regex := Eval cbv in
  Group (Str (u "프로젝트 ") +++ Greedy A_Z 1 3) +++ Str (u "은 ")
  +++ Group (LazyPlus Dot +++ Str (u " 기술")) +++ Str (u "을").

(** r"(\w+? 컴퍼니)에서 (프로젝트 [A-Z]{1,3})를 수행" *)
Definition re_company_proj : regex := Eval cbv in
  Group (LazyPlus Word +++ Str (u " 컴퍼니")) +++ Str (u "에서 ")
  +++ Group (Str (u "프로젝트 ") +++ Greedy A_Z 1 3) +++ Str (u "를 수행").

(** r"(\w+? 컴퍼니)는 (.+? 산업) 분야의" *)
Definition re_industry : regex := Eval cbv in
  Group (LazyPlus Word +++ Str (u " 컴퍼니")) +++ Str (u "는 ")
  +++ Group (LazyPlus Dot +++ Str (u " 산업")) +++ Str (u " 분야의").

(** [for a, b in matches]: each element must unpack into two names. *)
Definition unpack2 (m : list str) : M (str * str) :=
  match m with
  | [a; b] => ret (a, b)
  | _ => raise ValueError
  end.

(** One extraction loop: for every match, append the triple of the rule's
    fixed shape with both captures stripped. *)
Fixpoint append_matches (t1 rel t2 : str) (matches : list (list str))
    (triples : list Triple) : M (list Triple) :=
  match matches with
  | [] => ret triples
  | m :: rest =>
      ab <- unpack2 m ;;
      append_matches t1 rel t2 rest
        (triples ++ [(t1, strip (fst ab), rel, t2, strip (snd ab))])
  end.

Section WithUnicode.

Variable isalnum : cp -> bool.

Definition mock_nlp_to_triples (text : str) : M (list Triple) :=
  print MsgNlpStart ;;;
  let triples := [] in
  let project_keywords := findall isalnum re_project text in
  triples <- append_matches Project USES_TECH Technology
               project_keywords triples ;;
  let company_proj_keywords := findall isalnum re_company_proj text in
  triples <- append_matches Company CONDUCTS Project
               company_proj_keywords triples ;;
  let industry_keywords := findall isalnum re_industry text in
  triples <- append_matches Company BELONGS_TO Industry
               industry_keywords triples ;;
  print (MsgNlpCount (List.length triples)) ;;;
  ret triples.

End WithUnicode.

Definition apostrophe : cp := 39%N.
Definition backslash : cp := 92%N.
Definition nl : str := [10%N].
Definition indent : str := Eval cbv in u "        ".

(** [name.replace("'", "\\'")] *)
Definition name_safe (name : str) : str :=
  replace_char apostrophe [backslash; apostrophe] name.

(** The f-string of the loop body: a line break, three indented MERGE
    lines, and the indentation of the closing quotes. *)
Definition cypher_of (t : Triple) : str :=
  let '(n1_type, n1_name, relation, n2_type, n2_name) := t in
  let n1_name_safe := name_safe n1_name in
  let n2_name_safe := name_safe n2_name in
  nl ++ indent ++ u "MERGE (n1:" ++ n1_type ++ u " {name: '"
     ++ n1_name_safe ++ u "'})"
  ++ nl ++ indent ++ u "MERGE (n2:" ++ n2_type ++ u " {name: '"
     ++ n2_name_safe ++ u "'})"
  ++ nl ++ indent ++ u "MERGE (n1)-[:" ++ relation ++ u "]->(n2);"
  ++ nl ++ indent.

(** The loop of [generate_cypher_query]: [cypher_parts.append(cypher)]. *)
Fixpoint cypher_loop (triples : list Triple) (cypher_parts : list str)
    : list str :=
  match triples with
  | [] => cypher_parts
  | t :: rest => cypher_loop rest (cypher_parts ++ [cypher_of t])
  end.

Definition cypher_parts (triples : list Triple) : list str :=
  cypher_loop triples [].

Definition generate_cypher_query (triples : list Triple) : str :=
  join nl (cypher_parts triples).

(** ** Collaborators *)

(** [summary.counters]: the [SummaryCounters] of the neo4j driver.  Its
    counts are called [nodes_created], [relationships_created] and the
    like; of its attributes the program reads none. *)
Record Counters := { nodes_created : N; relationships_created : N }.

(** [counters.nodes] and [counters.relationships], the two attributes the
    pipeline reads: [SummaryCounters] has no attribute of either name, so
    reading them raises. *)
Definition counters_nodes (c : Counters) : M N := raise AttributeError.
Definition counters_relationships (c : Counters) : M N :=
  raise AttributeError.

(** The outside world of one run.
    - [pdf_pages path]: the pages [pdfplumber.open(path)] yields, each
      with what [page.extract_text()] returns ([None] for a page without
      text); [None] when opening or parsing raises.
    - [debug_file_ok]: whether "generated_cypher.cypher" can be opened
      for writing.
    - [debug_flush_ok]: whether the text written reaches the file when it
      is flushed and closed.
    - [session_run query]: the counters of [session.run(query).consume()],
      [None] when the session raises.  Opening and leaving the session,
      which stand outside the [try], are taken not to raise. *)
Record World := {
  pdf_pages : str -> option (list (option str));
  debug_file_ok : bool;
  debug_flush_ok : bool;
  session_run : str -> option Counters
}.

(** The result record the specification describes.  The source builds no
    such value; a Python function that ends without [return value] yields
    [None], which is [None] here as well. *)
Record PipelineResult := {
  triplesExtracted : nat;
  triplesAfterDedup : nat;
  statementsSubmitted : nat;
  nodesAffected : N;
  edgesAffected : N;
  succeeded : bool
}.

Fixpoint read_pages (pages : list (option str)) (full_text : str) : M str :=
  match pages with
  | [] => ret full_text
  | Some page_text :: rest =>
      read_pages rest (full_text ++ page_text ++ nl ++ nl)
  | None :: _ => raise TypeError
  end.

Definition extract_text_from_pdf (w : World) (pdf_path : str) : M str :=
  try_except
    (match pdf_pages w pdf_path with
     | Some pages =>
         full_text <- read_pages pages [] ;;
         print (MsgPdfDone pdf_path) ;;;
         ret full_text
     | None => raise OSError
     end)
    (print MsgPdfError ;;; ret []).

(** [Neo4jConnector.execute_cypher] *)
Definition execute_cypher (w : World) (cypher_query : str)
    : M (option Counters) :=
  emit (SinkRun cypher_query) ;;;
  match session_run w cypher_query with
  | Some counters => ret (Some counters)
  | None =>
      print MsgQueryError ;;;
      print (MsgQueryText cypher_query) ;;;
      ret None
  end.

Definition debug_file_name : str := Eval cbv in u "generated_cypher.cypher".

(** [with open("generated_cypher.cypher", "w", encoding="utf-8") as f:
    f.write(content)].  Opening creates or empties the file; the write
    raises when the text cannot be encoded, the close when the text cannot
    be flushed, and in both cases the emptied file stays behind. *)
Definition write_debug_file (w : World) (content : str) : M unit :=
  if debug_file_ok w then
    emit (OpenFile debug_file_name) ;;;
    if utf8_encodable content then
      if debug_flush_ok w then emit (WriteFile debug_file_name content)
      else raise OSError
    else raise UnicodeEncodeError
  else raise OSError.

Section Pipeline.

Variable isalnum : cp -> bool.

Definition automated_kg_pipeline (w : World) (pdf_path : str)
    : M (option PipelineResult) :=
  print MsgBanner ;;;
  print (MsgPipelineStart pdf_path) ;;;
  print MsgBanner ;;;
  document_text <- extract_text_from_pdf w pdf_path ;;
  match document_text with
  | [] => ret None
  | _ :: _ =>
      triples_list <- mock_nlp_to_triples isalnum document_text ;;
      match triples_list with
      | [] => print MsgNoRelations ;;; ret None
      | _ :: _ =>
          let full_cypher_query := generate_cypher_query triples_list in
          write_debug_file w full_cypher_query ;;;
          print MsgQuerySaved ;;;
          print MsgLoadStart ;;;
          counters <- execute_cypher w full_cypher_query ;;
          match counters with
          | Some c =>
              print MsgInsertOk ;;;
              n <- counters_nodes c ;;
              print (MsgNodes n) ;;;
              r <- counters_relationships c ;;
              print (MsgRelationships r) ;;;
              print MsgBanner ;;;
              ret None
          | None =>
              print MsgInsertFailed ;;;
              print MsgBanner ;;;
              ret None
          end
      end
  end.

End Pipeline.

End Pdf2Neo4j.
Import Pdf2Neo4j.

(* ------------------------------------------------------------------ *)
(** * Specification vocabulary *)

Module Spec.

(** ** What a pattern matches, declaratively

    [matches isalnum r w cs]: the pattern [r] can consume exactly the word
    [w], closing the groups [cs] on the way. *)
Inductive matches (isalnum : cp -> bool) : regex -> str -> list str -> Prop :=
| M_Str l : matches isalnum (Str l) l []
| M_Lazy c w :
    w <> [] -> Forall (fun x => in_class isalnum c x = true) w ->
    matches isalnum (LazyPlus c) w []
| M_Greedy c lo hi w :
    lo <= List.length w <= hi ->
    Forall (fun x => in_class isalnum c x = true) w ->
    matches isalnum (Greedy c lo hi) w []
| M_Cat r1 r2 w1 w2 c1 c2 :
    matches isalnum r1 w1 c1 -> matches isalnum r2 w2 c2 ->
    matches isalnum (Cat r1 r2) (w1 ++ w2) (c1 ++ c2)
| M_Group r w c :
    matches isalnum r w c -> matches isalnum (Group r) w (c ++ [w]).

(** ** Extraction *)

(** The triple a rule of shape [(t1, rel, t2)] builds from the groups of
    one match. *)
Definition triple_of (t1 rel t2 : str) (m : list str) : Triple :=
  (t1, strip (nth 0 m []), rel, t2, strip (nth 1 m [])).

Definition uses_tech_of := triple_of Project USES_TECH Technology.
Definition conducts_of := triple_of Company CONDUCTS Project.
Definition belongs_to_of := triple_of Company BELONGS_TO Industry.

(** [t] comes from the match of [r] that starts at offset [off] of
    [text]. *)
Definition extracted_at (isalnum : cp -> bool) (r : regex)
    (mk : list str -> Triple) (text : str) (off : nat) (t : Triple) : Prop :=
  exists cs n, match_at isalnum r (skipn off text) = Some (cs, n) /\ t = mk cs.

(** [ts] lists matches of [r] in [text] from left to right. *)
Definition in_text_order (isalnum : cp -> bool) (r : regex)
    (mk : list str -> Triple) (text : str) (ts : list Triple) : Prop :=
  exists offs, Forall2 (extracted_at isalnum r mk text) offs ts
               /\ StronglySorted lt offs.

(** No match of [r] that starts in the first [n] characters of [text]
    reaches beyond them. *)
Definition clear_before (isalnum : cp -> bool) (r : regex) (n : nat)
    (text : str) : bool :=
  forallb (fun i =>
             match match_at isalnum r (skipn i text) with
             | Some (_, len) => i + len <=? n
             | None => true
             end) (seq 0 n).

(** What extraction returns for [text]: the matches of the three rules,
    rule after rule. *)
Definition extracted (isalnum : cp -> bool) (text : str) : list Triple :=
  map uses_tech_of (findall isalnum re_project text)
  ++ map conducts_of (findall isalnum re_company_proj text)
  ++ map belongs_to_of (findall isalnum re_industry text).

(** The three rules: each pattern with the triple it builds. *)
Definition rules : list (regex * (list str -> Triple)) :=
  [ (re_project, uses_tech_of);
    (re_company_proj, conducts_of);
    (re_industry, belongs_to_of) ].

Definition captures_eq_dec : forall a b : list str, {a = b} + {a <> b} :=
  list_eq_dec (list_eq_dec N.eq_dec).

(** A capture whose last character is not white space. *)
Definition ends_visible (s : str) : Prop :=
  exists body c, s = body ++ [c] /\ isspace c = false.

(** The groups of one match: two captures, both ending visibly. *)
Definition two_names (cs : list str) : Prop :=
  exists a b, cs = [a; b] /\ ends_visible a /\ ends_visible b.

(** ** Well-formed triples *)

Definition shapes : list (str * str * str) :=
  [ (Project, USES_TECH, Technology);
    (Company, CONDUCTS, Project);
    (Company, BELONGS_TO, Industry) ].

Definition shape_eqb (a b : str * str * str) : bool :=
  let '(a1, a2, a3) := a in
  let '(b1, b2, b3) := b in
  str_eqb a1 b1 && str_eqb a2 b2 && str_eqb a3 b3.

(** Not empty, and neither the first nor the last character is white
    space. *)
Definition trimmed (s : str) : bool :=
  match s with
  | [] => false
  | c :: _ => negb (isspace c) && negb (isspace (last s c))
  end.

Definition well_formed (t : Triple) : bool :=
  existsb (shape_eqb (n1_type t, relation t, n2_type t)) shapes
  && trimmed (n1_name t) && trimmed (n2_name t).

(** ** Runs *)

Definition is_print (e : event) : bool :=
  match e with Print _ => true | _ => false end.

(** The run contacted the sink. *)
Definition calls_sink (tr : list event) : bool :=
  existsb (fun e => match e with SinkRun _ => true | _ => false end) tr.

(** The run opened, hence emptied, or wrote the debug file. *)
Definition writes_file (tr : list event) : bool :=
  existsb (fun e => match e with
                    | OpenFile _ | WriteFile _ _ => true
                    | _ => false
                    end) tr.

(** ** Statements *)

(** "ensure node": [MERGE (var:label {name: 'key'})] *)
Definition merge_node (var label key : str) : str :=
  u "MERGE (" ++ var ++ u ":" ++ label ++ u " {name: '" ++ key ++ u "'})".

(** "ensure edge": [MERGE (n1)-[:rel]->(n2);] *)
Definition merge_edge (rel : str) : str :=
  u "MERGE (n1)-[:" ++ rel ++ u "]->(n2);".

(** [stmt] is the statement of [t]: ensure the subject node, ensure the
    object node, ensure the edge between them, each on a line of its own. *)
Definition statement_of (t : Triple) (stmt : str) : Prop :=
  stmt = nl ++ indent
         ++ merge_node (u "n1") (n1_type t) (name_safe (n1_name t))
         ++ nl ++ indent
         ++ merge_node (u "n2") (n2_type t) (name_safe (n2_name t))
         ++ nl ++ indent ++ merge_edge (relation t)
         ++ nl ++ indent.

Definition triple_eq_dec : forall a b : Triple, {a = b} + {a <> b}.
Proof. repeat decide equality. Defined.

Definition str_eq_dec : forall a b : str, {a = b} + {a <> b} :=
  list_eq_dec N.eq_dec.

(** ** The sink's reading of a single-quoted literal

    Cypher reads a ['...'] literal up to the first unescaped apostrophe; a
    backslash escapes the next character.  [read_quoted s] reads from just
    after the opening apostrophe and returns the value together with the
    text that follows the closing apostrophe.  Escapes with [\u] are not
    modelled (the literal is rejected). *)
Definition unescape (c : cp) : option cp :=
  if (c =? 92)%N then Some 92%N             (* backslash *)
  else if (c =? 39)%N then Some 39%N        (* apostrophe *)
  else if (c =? 34)%N then Some 34%N        (* double quote *)
  else if (c =? 98)%N then Some 8%N         (* b: backspace *)
  else if (c =? 102)%N then Some 12%N       (* f: form feed *)
  else if (c =? 110)%N then Some 10%N       (* n: line feed *)
  else if (c =? 114)%N then Some 13%N       (* r: carriage return *)
  else if (c =? 116)%N then Some 9%N        (* t: tab *)
  else None.

Fixpoint read_quoted (s : str) : option (str * str) :=
  match s with
  | [] => None
  | c :: s' =>
      if (c =? apostrophe)%N then Some ([], s')
      else if (c =? backslash)%N then
        match s' with
        | e :: s'' =>
            match unescape e, read_quoted s'' with
            | Some x, Some (v, rest) => Some (x :: v, rest)
            | _, _ => None
            end
        | [] => None
        end
      else
        match read_quoted s' with
        | Some (v, rest) => Some (c :: v, rest)
        | None => None
        end
  end.

(** ** Concrete inputs *)

(** [str.isalnum] on Basic Latin and on the Hangul Syllables block, the
    characters of the examples below; other code points are taken as not
    alphanumeric. *)
Definition isalnum_latin_hangul (c : cp) : bool :=
  ((48 <=? c) && (c <=? 57) || (65 <=? c) && (c <=? 90)
   || (97 <=? c) && (c <=? 122) || (44032 <=? c) && (c <=? 55203))%N.

Definition sentence_python : str := Eval cbv in u "프로젝트 AAA은 Python 기술을".

Definition triple_python : Triple :=
  (Project, u "프로젝트 AAA", USES_TECH, Technology, u "Python 기술").

Definition triple_python_spec : Triple :=
  (Project, u "프로젝트 AAA", USES_TECH, Technology, u "Python").

(** The same sentence twice, one per line. *)
Definition text_twice : str := sentence_python ++ nl ++ sentence_python.

(** A technology name that holds a backslash followed by an apostrophe. *)
Definition text_quote : str := Eval cbv in u "프로젝트 A은 \' 기술을".
Definition name_quote : str := Eval cbv in u "\' 기술".
Definition triple_quote : Triple :=
  (Project, u "프로젝트 A", USES_TECH, Technology, name_quote).

(** An earlier sentence of the same rule that runs into the next one. *)
Definition text_overlap : str := Eval cbv in
  u "프로젝트 B은 프로젝트 AAA은 Python 기술을".

(** A CONDUCTS sentence followed by a USES_TECH sentence (the third item
    of the sample report of the source). *)
Definition text_ccc : str := Eval cbv in
  u "C 컴퍼니에서 프로젝트 CCC를 수행했으며, 프로젝트 CCC은 Java 기술을 사용했습니다.".

Definition report_path : str := Eval cbv in u "report.pdf".

(** A one-page document; the debug file can be written. *)
Definition world_of (page : str) (sink : str -> option Counters) : World :=
  {| pdf_pages := fun _ => Some [Some page];
     debug_file_ok := true;
     debug_flush_ok := true;
     session_run := sink |}.

(** The text acquired from that document: the page and two line feeds. *)
Definition document_of (page : str) : str := page ++ nl ++ nl.

(** The same document in a directory where the debug file cannot be
    opened. *)
Definition world_read_only (page : str) (sink : str -> option Counters)
    : World :=
  {| pdf_pages := fun _ => Some [Some page];
     debug_file_ok := false;
     debug_flush_ok := true;
     session_run := sink |}.

(** A USES_TECH sentence whose technology name holds a lone surrogate. *)
Definition text_surrogate : str :=
  Eval cbv in u "프로젝트 A은 " ++ [55296%N] ++ u " 기술을".

Definition sink_down : str -> option Counters := fun _ => None.
Definition sink_up : str -> option Counters :=
  fun _ => Some {| nodes_created := 2; relationships_created := 1 |}.

End Spec.
Import Spec.

(* ------------------------------------------------------------------ *)
(** * The script around the pipeline *)

Module Script.

Definition PDF_FILE_PATH : str :=
  Eval cbv in u "IT_Consulting_Report_Sample.pdf".

(** What the [__main__] block does around the pipeline. *)
Inductive script_event :=
| SampleWritten            (* the sample report written to PDF_FILE_PATH *)
| SampleWarning            (* the caution printed when that write raises *)
| DriverOpened             (* Neo4jConnector(URI, USER, PASSWORD) *)
| Pipeline (e : event)     (* an event of automated_kg_pipeline *)
| DriverClosed.            (* connector.close() *)

(** How the script ends. *)
Inductive script_end :=
| Finished
| DriverFailed                   (* the constructor of the driver raised *)
| PipelineRaised (e : exn).      (* the pipeline raised; nothing catches it *)

(** How the write of the sample report ends: [open] raised and the file
    is as it was; or [open] emptied the file and the text was then written,
    or was not.  (The sample text has no lone surrogate, so that encoding
    it cannot fail.) *)
Inductive sample_write :=
| SampleDone
| SampleNotOpened
| SampleNotFlushed.

(** The machine the script runs on: how the write of the sample ends, what
    [pdfplumber] makes of the file at PDF_FILE_PATH once that write has
    opened it ([None] when it raises, as it does on a file that is not a
    PDF), and the world behind the driver as it is before the script runs
    ([None] when the driver cannot be constructed). *)
Record Machine := {
  sample_file : sample_write;
  overwritten_report : option (list (option str));
  driver : option World
}.

Definition sample_opened (m : Machine) : bool :=
  match sample_file m with
  | SampleNotOpened => false
  | SampleDone | SampleNotFlushed => true
  end.

(** The world the pipeline runs in: the file at PDF_FILE_PATH is the one
    the script left there. *)
Definition world_after_sample (m : Machine) (w : World) : World :=
  if sample_opened m then
    {| pdf_pages := fun path =>
         if str_eqb path PDF_FILE_PATH then overwritten_report m
         else pdf_pages w path;
       debug_file_ok := debug_file_ok w;
       debug_flush_ok := debug_flush_ok w;
       session_run := session_run w |}
  else w.

Definition main (isalnum : cp -> bool) (m : Machine)
    : list script_event * script_end :=
  let sample :=
    match sample_file m with
    | SampleDone => [SampleWritten]
    | SampleNotOpened | SampleNotFlushed => [SampleWarning]
    end in
  match driver m with
  | None => (sample, DriverFailed)
  | Some w =>
      let connector := world_after_sample m w in
      let run := automated_kg_pipeline isalnum connector PDF_FILE_PATH in
      match outcome run with
      | Ok _ =>
          (sample ++ DriverOpened :: map Pipeline (trace run) ++ [DriverClosed],
           Finished)
      | Raise e =>
          (sample ++ DriverOpened :: map Pipeline (trace run),
           PipelineRaised e)
      end
  end.

End Script.
Import Script.

(* ------------------------------------------------------------------ *)
(** * Names, texts and traces: further vocabulary *)

Module Shape.

(** [s.startswith(prefix)] and [s.endswith(suffix)] *)
Definition starts_with (prefix s : str) : bool :=
  match eat prefix s with Some _ => true | None => false end.

Definition ends_with (suffix s : str) : bool :=
  starts_with (rev suffix) (rev s).

(** A capital letter A..Z. *)
Definition upper (c : cp) : bool := ((65 <=? c) && (c <=? 90))%N.

(** "프로젝트 " followed by one to three capital letters. *)
Definition project_name (s : str) : bool :=
  match eat (u "프로젝트 ") s with
  | Some id =>
      (1 <=? List.length id) && (List.length id <=? 3) && forallb upper id
  | None => false
  end.

(** The names of a triple have the form its rule gives them. *)
Definition rule_shaped (t : Triple) : bool :=
  if str_eqb (relation t) USES_TECH then
    project_name (n1_name t) && ends_with (u "기술") (n2_name t)
  else if str_eqb (relation t) CONDUCTS then
    ends_with (u "컴퍼니") (n1_name t) && project_name (n2_name t)
  else if str_eqb (relation t) BELONGS_TO then
    ends_with (u "컴퍼니") (n1_name t) && ends_with (u "산업") (n2_name t)
  else false.

(** The character does not occur in the text. *)
Definition absent (c : cp) (s : str) : bool :=
  negb (existsb (N.eqb c) s).

(** A USES_TECH sentence: "프로젝트 ", the code [id], "은 ", the technology
    [tech], " 기술을". *)
Definition uses_tech_sentence (id tech : str) : str :=
  u "프로젝트 " ++ id ++ u "은 " ++ tech ++ u " 기술을".

(** A CONDUCTS sentence: the company [comp], " 컴퍼니에서 프로젝트 ", the
    code [id], "를 수행". *)
Definition conducts_sentence (comp id : str) : str :=
  comp ++ u " 컴퍼니에서 프로젝트 " ++ id ++ u "를 수행".

(** A BELONGS_TO sentence: the company [comp], " 컴퍼니는 ", the industry
    [ind], " 산업 분야의". *)
Definition belongs_to_sentence (comp ind : str) : str :=
  comp ++ u " 컴퍼니는 " ++ ind ++ u " 산업 분야의".

(** All pages of the document with their text, each followed by two line
    feeds. *)
Definition pages_text (pages : list str) : str :=
  List.concat (map (fun page_text => page_text ++ nl ++ nl) pages).

(** The events of a trace that reach outside the process: the debug-file
    write and the sink call, in order. *)
Definition outward (tr : list event) : list event :=
  filter (fun e => negb (is_print e)) tr.

(** [pat in s]: the text [pat] occurs somewhere in [s]. *)
Fixpoint occurs (pat s : str) : bool :=
  starts_with pat s
  || match s with
     | [] => false
     | _ :: s' => occurs pat s'
     end.

End Shape.
Import Shape.

(* ================================================================== *)
(** * Properties *)

(** ** Strings *)

Module PyStrFacts.

Lemma lstrip_head (s : str) (c : cp) (rest : str) :
  lstrip s = c :: rest -> isspace c = false.
Proof.
  induction s as [|x s IH]; simpl; [discriminate|].
  destruct (isspace x) eqn:Hx; [exact IH|].
  intros E; injection E as -> _; exact Hx.
Qed.

Lemma lstrip_snoc (s : str) (c : cp) :
  isspace c = false -> lstrip (s ++ [c]) = lstrip s ++ [c].
Proof.
  intros Hc; induction s as [|x s IH]; simpl.
  - now rewrite Hc.
  - destruct (isspace x); [exact IH|reflexivity].
Qed.

Lemma rstrip_snoc (s : str) (c : cp) :
  isspace c = false -> rstrip (s ++ [c]) = s ++ [c].
Proof.
  intros Hc; unfold rstrip.
  rewrite rev_app_distr; simpl; rewrite Hc; simpl.
  now rewrite rev_involutive.
Qed.

(** Stripping a text whose last character is not white space removes
    leading white space only. *)
Lemma strip_snoc (s : str) (c : cp) :
  isspace c = false -> strip (s ++ [c]) = lstrip s ++ [c].
Proof.
  intros Hc; unfold strip.
  rewrite (lstrip_snoc _ _ Hc); apply rstrip_snoc; exact Hc.
Qed.

Lemma trimmed_strip_snoc (s : str) (c : cp) :
  isspace c = false -> trimmed (strip (s ++ [c])) = true.
Proof.
  intros Hc; rewrite (strip_snoc _ _ Hc).
  destruct (lstrip s) as [|x rest] eqn:E; simpl.
  - now rewrite Hc.
  - rewrite (lstrip_head _ _ _ E); simpl.
    change (match rest ++ [c] with [] => x | _ :: _ => last (rest ++ [c]) x end)
      with (last (x :: rest ++ [c]) x).
    change (x :: rest ++ [c]) with ((x :: rest) ++ [c]).
    now rewrite last_last, Hc.
Qed.

Lemma join_cons (sep p : str) (ps : list str) :
  ps <> [] -> join sep (p :: ps) = p ++ sep ++ join sep ps.
Proof. destruct ps; [congruence|reflexivity]. Qed.

End PyStrFacts.
Import PyStrFacts.

(** ** The matcher answers only with words of the pattern *)

Module ReFacts.

Section Soundness.

Variable isalnum : cp -> bool.

Lemma eat_spec (l s s' : str) : eat l s = Some s' -> s = l ++ s'.
Proof.
  revert s; induction l as [|a l IH]; intros [|b s]; simpl; try congruence.
  destruct (N.eqb_spec a b) as [->|]; [|discriminate].
  intros E; now rewrite (IH _ E).
Qed.

Lemma eat_app (l s : str) : eat l (l ++ s) = Some s.
Proof.
  induction l as [|a l IH]; simpl; [reflexivity|].
  now rewrite N.eqb_refl.
Qed.

Lemma lazy_plus_sound p k :
  forall s pos a,
    lazy_plus p k pos s = Some a ->
    exists w s', s = w ++ s' /\ w <> [] /\ Forall (fun x => p x = true) w
                 /\ k (pos + List.length w) s' = Some a.
Proof.
  induction s as [|x s IH]; simpl; intros pos a H; [discriminate|].
  destruct (p x) eqn:Px; [|discriminate].
  destruct (k (S pos) s) as [a'|] eqn:K.
  - exists [x], s; simpl; repeat split; auto; try congruence.
    now rewrite Nat.add_1_r, K.
  - destruct (IH _ _ H) as (w & s' & -> & _ & Hall & Hk).
    exists (x :: w), s'; simpl; repeat split; auto; try congruence.
    now rewrite Nat.add_succ_r.
Qed.

Lemma greedy_sound p k :
  forall hi lo s pos a,
    greedy p lo hi k pos s = Some a ->
    exists w s', s = w ++ s' /\ lo <= List.length w <= hi
                 /\ Forall (fun x => p x = true) w
                 /\ k (pos + List.length w) s' = Some a.
Proof.
  assert (Stop : forall lo hi s pos a,
             match lo with O => k pos s | S _ => None end = Some a ->
             exists w s', s = w ++ s' /\ lo <= List.length w <= hi
                          /\ Forall (fun x => p x = true) w
                          /\ k (pos + List.length w) s' = Some a).
  { intros [|lo] hi s pos a H; [|discriminate].
    exists [], s; simpl; rewrite Nat.add_0_r; repeat split; auto; lia. }
  induction hi as [|hi IH]; intros lo s pos a; simpl; [apply Stop|].
  destruct s as [|x s]; [apply Stop|].
  destruct (p x) eqn:Px; [|apply Stop].
  destruct (greedy p (pred lo) hi k (S pos) s) as [a'|] eqn:G; [|apply Stop].
  intros E; injection E as ->.
  destruct (IH _ _ _ _ G) as (w & s' & -> & Hlen & Hall & Hk).
  exists (x :: w), s'; simpl; repeat split; auto; try lia.
  now rewrite Nat.add_succ_r.
Qed.

(** Soundness of the backtracking matcher: an answer comes from consuming
    a word of the pattern and then running the continuation. *)
Lemma rmatch_sound :
  forall r k pos s caps a,
    rmatch isalnum r k pos s caps = Some a ->
    exists w s' cs,
      s = w ++ s' /\ matches isalnum r w cs
      /\ k (pos + List.length w) s' (caps ++ cs) = Some a.
Proof.
  induction r as [l|c|c lo hi|r1 IH1 r2 IH2|r IH]; intros k pos s caps a H;
    simpl in H.
  - destruct (eat l s) as [s'|] eqn:E; [|discriminate].
    exists l, s', []; rewrite app_nil_r; repeat split; auto using eat_spec.
    constructor.
  - destruct (lazy_plus_sound _ _ _ _ _ H) as (w & s' & -> & Hne & Hall & Hk).
    exists w, s', []; rewrite app_nil_r; repeat split; auto.
    now constructor.
  - destruct (greedy_sound _ _ _ _ _ _ _ H) as (w & s' & -> & Hlen & Hall & Hk).
    exists w, s', []; rewrite app_nil_r; repeat split; auto.
    now constructor.
  - destruct (IH1 _ _ _ _ _ H) as (w1 & s1 & c1 & -> & M1 & H1).
    destruct (IH2 _ _ _ _ _ H1) as (w2 & s2 & c2 & -> & M2 & H2).
    exists (w1 ++ w2), s2, (c1 ++ c2); repeat split.
    + now rewrite app_assoc.
    + now constructor.
    + now rewrite length_app, Nat.add_assoc, app_assoc.
  - destruct (IH _ _ _ _ _ H) as (w & s' & cs & -> & M & Hk).
    exists w, s', (cs ++ [w]); repeat split.
    + now constructor.
    + replace (pos + List.length w - pos) with (List.length w + 0) in Hk by lia.
      rewrite firstn_app_2 in Hk; simpl in Hk.
      now rewrite app_nil_r, <- app_assoc in Hk.
Qed.

Lemma match_at_sound r s cs n :
  match_at isalnum r s = Some (cs, n) ->
  exists w s', s = w ++ s' /\ matches isalnum r w cs /\ n = List.length w.
Proof.
  intros H; destruct (rmatch_sound _ _ _ _ _ _ H) as (w & s' & cs' & -> & M & E).
  simpl in E; injection E as <- <-; eauto.
Qed.

(** Every hit of the scan is a match of the pattern at its offset, at or
    after the start of the scan. *)
Lemma scan_hit r :
  forall s pos skip p cs,
    In (p, cs) (scan isalnum r pos skip s) ->
    pos <= p /\ exists n, match_at isalnum r (skipn (p - pos) s) = Some (cs, n).
Proof.
  induction s as [|x s IH]; intros pos skip p cs; simpl.
  - destruct skip; [|contradiction].
    destruct (match_at isalnum r []) as [[cs' n]|] eqn:E; [|contradiction].
    intros [[= <- <-]|[]]; split; [lia|].
    rewrite Nat.sub_diag; simpl; eauto.
  - assert (Later : forall k, In (p, cs) (scan isalnum r (S pos) k s) ->
               pos <= p /\ exists n,
                 match_at isalnum r (skipn (p - pos) (x :: s)) = Some (cs, n)).
    { intros k Hin; destruct (IH _ _ _ _ Hin) as (Hle & n & Hn).
      split; [lia|]. exists n.
      replace (p - pos) with (S (p - S pos)) by lia; exact Hn. }
    destruct skip as [|k]; [|apply Later].
    destruct (match_at isalnum r (x :: s)) as [[cs' n]|] eqn:E; [|apply Later].
    intros [[= <- <-]|Hin]; [|eapply Later; eauto].
    split; [lia|]. rewrite Nat.sub_diag; simpl; eauto.
Qed.

(** The offsets of the scan increase strictly: matches are reported from
    left to right. *)
Lemma scan_sorted r :
  forall s pos skip, StronglySorted lt (map fst (scan isalnum r pos skip s)).
Proof.
  induction s as [|x s IH]; intros pos skip; simpl.
  - destruct skip; [|constructor].
    destruct (match_at isalnum r []) as [[cs n]|]; simpl;
      repeat constructor.
  - destruct skip as [|k]; [|apply IH].
    destruct (match_at isalnum r (x :: s)) as [[cs n]|]; [|apply IH].
    simpl; constructor; [apply IH|].
    apply Forall_forall; intros q Hq.
    apply in_map_iff in Hq; destruct Hq as ([q' cs'] & <- & Hin).
    apply scan_hit in Hin; simpl; lia.
Qed.

End Soundness.

End ReFacts.
Import ReFacts.

(** ** The three rules *)

Module RuleFacts.

Ltac invert_matches :=
  repeat match goal with
         | H : matches _ (Cat _ _) _ _ |- _ => inversion H; subst; clear H
         | H : matches _ (Group _) _ _ |- _ => inversion H; subst; clear H
         | H : matches _ (Str _) _ _ |- _ => inversion H; subst; clear H
         | H : matches _ (LazyPlus _) _ _ |- _ => inversion H; subst; clear H
         | H : matches _ (Greedy _ _ _) _ _ |- _ => inversion H; subst; clear H
         end.

Lemma upper_not_space (c : cp) :
  ((65 <=? c) && (c <=? 90))%N = true -> isspace c = false.
Proof.
  intros H; apply andb_true_iff in H; destruct H as [H1 H2].
  apply N.leb_le in H1, H2; unfold isspace.
  assert (Hle : forall n, (n < c)%N -> (c <=? n)%N = false)
    by (intros n Hn; apply N.leb_gt; exact Hn).
  assert (Hge : forall n, (c < n)%N -> (n <=? c)%N = false)
    by (intros n Hn; apply N.leb_gt; exact Hn).
  assert (Hne : forall n, c <> n -> (c =? n)%N = false)
    by (intros n Hn; apply N.eqb_neq; exact Hn).
  rewrite (Hle 13%N), (Hle 32%N), (Hge 8192%N) by lia.
  rewrite !Hne by lia.
  now rewrite !andb_false_r.
Qed.

Section Shapes.

Variable isalnum : cp -> bool.

(** r"(프로젝트 [A-Z]{1,3})은 (.+? 기술)을" *)
Lemma re_project_shape w cs :
  matches isalnum re_project w cs ->
  exists id tech,
    cs = [u "프로젝트 " ++ id; tech ++ u " 기술"]
    /\ w = u "프로젝트 " ++ id ++ u "은 " ++ tech ++ u " 기술을"
    /\ 1 <= List.length id <= 3
    /\ Forall (fun x => in_class isalnum A_Z x = true) id
    /\ tech <> []
    /\ Forall (fun x => in_class isalnum Dot x = true) tech.
Proof.
  unfold re_project; intros H; invert_matches.
  match goal with
  | Hid : Forall _ ?id, Htech : Forall _ ?tech, _ : ?tech <> [] |- _ =>
      exists id, tech
  end.
  repeat split; auto; try lia.
  simpl. now rewrite <- !app_assoc.
Qed.

(** r"(\w+? 컴퍼니)에서 (프로젝트 [A-Z]{1,3})를 수행" *)
Lemma re_company_proj_shape w cs :
  matches isalnum re_company_proj w cs ->
  exists comp id,
    cs = [comp ++ u " 컴퍼니"; u "프로젝트 " ++ id]
    /\ w = comp ++ u " 컴퍼니에서 프로젝트 " ++ id ++ u "를 수행"
    /\ comp <> []
    /\ Forall (fun x => in_class isalnum Word x = true) comp
    /\ 1 <= List.length id <= 3
    /\ Forall (fun x => in_class isalnum A_Z x = true) id.
Proof.
  unfold re_company_proj; intros H; invert_matches.
  match goal with
  | Hid : Forall _ ?id, Hc : Forall _ ?comp, _ : ?comp <> [] |- _ =>
      exists comp, id
  end.
  repeat split; auto; try lia.
  simpl. now rewrite <- !app_assoc.
Qed.

(** r"(\w+? 컴퍼니)는 (.+? 산업) 분야의" *)
Lemma re_industry_shape w cs :
  matches isalnum re_industry w cs ->
  exists comp ind,
    cs = [comp ++ u " 컴퍼니"; ind ++ u " 산업"]
    /\ w = comp ++ u " 컴퍼니는 " ++ ind ++ u " 산업 분야의"
    /\ comp <> []
    /\ Forall (fun x => in_class isalnum Word x = true) comp
    /\ ind <> []
    /\ Forall (fun x => in_class isalnum Dot x = true) ind.
Proof.
  unfold re_industry; intros H; invert_matches.
  match goal with
  | Hi : Forall (fun x => in_class _ Dot x = true) ?ind,
    Hc : Forall (fun x => in_class _ Word x = true) ?comp |- _ =>
      exists comp, ind
  end.
  repeat split; auto.
  simpl. now rewrite <- !app_assoc.
Qed.

End Shapes.

End RuleFacts.
Import RuleFacts.

(** ** Extraction *)

Module ExtractFacts.

Lemma ends_visible_suffix (body suffix : str) (c : cp) :
  isspace c = false -> ends_visible (body ++ suffix ++ [c]).
Proof.
  intros Hc; exists (body ++ suffix), c; split; [|exact Hc].
  now rewrite app_assoc.
Qed.

Lemma ends_visible_upper (isalnum : cp -> bool) (prefix id : str) :
  1 <= List.length id ->
  Forall (fun x => in_class isalnum A_Z x = true) id ->
  ends_visible (prefix ++ id).
Proof.
  intros Hlen Hall.
  destruct (exists_last (l := id)) as (body & c & ->).
  { destruct id; simpl in Hlen; [lia|discriminate]. }
  apply Forall_app in Hall; destruct Hall as [_ Hc].
  inversion Hc as [|? ? Hc' _]; subst.
  exists (prefix ++ body), c; split; [now rewrite app_assoc|].
  now apply upper_not_space.
Qed.

Section Extraction.

Variable isalnum : cp -> bool.

Lemma re_project_names w cs :
  matches isalnum re_project w cs -> two_names cs.
Proof.
  intros H; apply re_project_shape in H.
  destruct H as (id & tech & -> & _ & Hlen & Hid & _ & _).
  eexists _, _; split; [reflexivity|split].
  - eapply ends_visible_upper; eauto; lia.
  - apply (ends_visible_suffix tech [32; 44592]%N 49696%N); reflexivity.
Qed.

Lemma re_company_proj_names w cs :
  matches isalnum re_company_proj w cs -> two_names cs.
Proof.
  intros H; apply re_company_proj_shape in H.
  destruct H as (comp & id & -> & _ & _ & _ & Hlen & Hid).
  eexists _, _; split; [reflexivity|split].
  - apply (ends_visible_suffix comp [32; 52980; 54140]%N 45768%N); reflexivity.
  - eapply ends_visible_upper; eauto; lia.
Qed.

Lemma re_industry_names w cs :
  matches isalnum re_industry w cs -> two_names cs.
Proof.
  intros H; apply re_industry_shape in H.
  destruct H as (comp & ind & -> & _ & _ & _ & _ & _).
  eexists _, _; split; [reflexivity|split].
  - apply (ends_visible_suffix comp [32; 52980; 54140]%N 45768%N); reflexivity.
  - apply (ends_visible_suffix ind [32; 49328]%N 50629%N); reflexivity.
Qed.

(** Whatever the text, every element of [findall] is a pair of names. *)
Lemma findall_names r text :
  (forall w cs, matches isalnum r w cs -> two_names cs) ->
  Forall two_names (findall isalnum r text).
Proof.
  intros Hr; apply Forall_forall; intros cs Hin.
  apply in_map_iff in Hin; destruct Hin as ([p cs'] & <- & Hin).
  apply scan_hit in Hin; destruct Hin as (_ & n & Hm).
  apply match_at_sound in Hm; destruct Hm as (w & s' & _ & Hm & _).
  simpl; eauto.
Qed.

(** On pairs the unpacking never raises: the loop appends one triple per
    match, in order, and prints nothing. *)
Lemma append_matches_ok t1 rel t2 :
  forall ms triples,
    Forall two_names ms ->
    append_matches t1 rel t2 ms triples
    = ([], Ok (triples ++ map (triple_of t1 rel t2) ms)).
Proof.
  induction ms as [|m ms IH]; intros triples Hall; simpl.
  - now rewrite app_nil_r.
  - inversion Hall as [|? ? (a & b & -> & _ & _) Hms]; subst.
    simpl. rewrite (IH _ Hms); simpl.
    now rewrite <- app_assoc.
Qed.

(** The extraction function returns normally on every text: it prints its
    two progress lines and returns [extracted]. *)
Lemma mock_nlp_to_triples_eq text :
  mock_nlp_to_triples isalnum text
  = ([Print MsgNlpStart;
      Print (MsgNlpCount (List.length (extracted isalnum text)))],
     Ok (extracted isalnum text)).
Proof.
  unfold mock_nlp_to_triples, extracted.
  rewrite (append_matches_ok Project USES_TECH Technology _ []
             (findall_names re_project text re_project_names)); simpl.
  rewrite (append_matches_ok Company CONDUCTS Project _ _
             (findall_names re_company_proj text re_company_proj_names)); simpl.
  rewrite (append_matches_ok Company BELONGS_TO Industry _ _
             (findall_names re_industry text re_industry_names)); simpl.
  now rewrite <- app_assoc.
Qed.

Lemma mock_nlp_to_triples_outcome text :
  outcome (mock_nlp_to_triples isalnum text) = Ok (extracted isalnum text).
Proof. now rewrite mock_nlp_to_triples_eq. Qed.

End Extraction.

End ExtractFacts.
Import ExtractFacts.

(** ** Compilation *)

Module CompileFacts.

Lemma cypher_loop_eq :
  forall triples parts,
    cypher_loop triples parts = parts ++ map cypher_of triples.
Proof.
  induction triples as [|t ts IH]; intros parts; simpl.
  - now rewrite app_nil_r.
  - now rewrite IH, <- app_assoc.
Qed.

Lemma cypher_parts_eq (triples : list Triple) :
  cypher_parts triples = map cypher_of triples.
Proof. unfold cypher_parts; now rewrite cypher_loop_eq. Qed.

(** The block of one triple, read as three operations. *)
Lemma cypher_of_merges (t : Triple) :
  cypher_of t
  = nl ++ indent
    ++ merge_node (u "n1") (n1_type t) (name_safe (n1_name t))
    ++ nl ++ indent
    ++ merge_node (u "n2") (n2_type t) (name_safe (n2_name t))
    ++ nl ++ indent ++ merge_edge (relation t)
    ++ nl ++ indent.
Proof.
  destruct t as [[[[t1 n1] rel] t2] n2].
  unfold cypher_of, merge_node, merge_edge; simpl.
  repeat (rewrite <- ?app_assoc; simpl). reflexivity.
Qed.

End CompileFacts.
Import CompileFacts.

(** ** Runs of the pipeline *)

Module PipelineFacts.

Lemma read_pages_silent :
  forall pages full_text, trace (read_pages pages full_text) = [].
Proof.
  induction pages as [|[page|] pages IH]; intros full_text; simpl; auto.
Qed.

(** Text acquisition never raises: a failure is caught and yields the empty
    text.  It only prints. *)
Lemma extract_text_from_pdf_ok (w : World) (pdf_path : str) :
  exists tr text,
    extract_text_from_pdf w pdf_path = (tr, Ok text)
    /\ forallb is_print tr = true.
Proof.
  unfold extract_text_from_pdf.
  destruct (pdf_pages w pdf_path) as [pages|]; simpl; [|eauto].
  pose proof (read_pages_silent pages []) as Htr.
  destruct (read_pages pages []) as [tr [text|e]]; simpl in *; subst; simpl;
    eauto.
Qed.

Lemma extract_text_from_pdf_failed (w : World) (pdf_path : str) :
  pdf_pages w pdf_path = None ->
  extract_text_from_pdf w pdf_path = ([Print MsgPdfError], Ok []).
Proof. unfold extract_text_from_pdf; now intros ->. Qed.

Section Runs.

Variable isalnum : cp -> bool.

(** Every run, event by event. *)
Lemma pipeline_run (w : World) (pdf_path : str) :
  exists tr0 text,
    extract_text_from_pdf w pdf_path = (tr0, Ok text)
    /\ forallb is_print tr0 = true
    /\ automated_kg_pipeline isalnum w pdf_path =
       let head := [Print MsgBanner; Print (MsgPipelineStart pdf_path);
                    Print MsgBanner] ++ tr0 in
       match text with
       | [] => (head, Ok None)
       | _ :: _ =>
           let ts := extracted isalnum text in
           let nlp := [Print MsgNlpStart; Print (MsgNlpCount (List.length ts))] in
           match ts with
           | [] => (head ++ nlp ++ [Print MsgNoRelations], Ok None)
           | _ :: _ =>
               let q := generate_cypher_query ts in
               if debug_file_ok w then
                 if utf8_encodable q then
                   if debug_flush_ok w then
                     match session_run w q with
                     | Some c =>
                         (head ++ nlp
                          ++ [OpenFile debug_file_name;
                              WriteFile debug_file_name q;
                              Print MsgQuerySaved; Print MsgLoadStart;
                              SinkRun q; Print MsgInsertOk],
                          Raise AttributeError)
                     | None =>
                         (head ++ nlp
                          ++ [OpenFile debug_file_name;
                              WriteFile debug_file_name q;
                              Print MsgQuerySaved; Print MsgLoadStart;
                              SinkRun q; Print MsgQueryError;
                              Print (MsgQueryText q); Print MsgInsertFailed;
                              Print MsgBanner], Ok None)
                     end
                   else (head ++ nlp ++ [OpenFile debug_file_name],
                         Raise OSError)
                 else (head ++ nlp ++ [OpenFile debug_file_name],
                       Raise UnicodeEncodeError)
               else (head ++ nlp, Raise OSError)
           end
       end.
Proof.
  destruct (extract_text_from_pdf_ok w pdf_path) as (tr0 & text & E & Hp).
  exists tr0, text; repeat split; auto.
  unfold automated_kg_pipeline; rewrite E.
  destruct text as [|x text]; simpl; [now rewrite app_nil_r|].
  rewrite mock_nlp_to_triples_eq.
  destruct (extracted isalnum (x :: text)) as [|t ts]; simpl.
  - now rewrite <- ?app_assoc.
  - unfold write_debug_file, execute_cypher.
    destruct (debug_file_ok w); simpl;
      [|now rewrite <- ?app_assoc, ?app_nil_r].
    destruct (utf8_encodable _); simpl;
      [|now rewrite <- ?app_assoc, ?app_nil_r].
    destruct (debug_flush_ok w); simpl;
      [|now rewrite <- ?app_assoc, ?app_nil_r].
    destruct (session_run w _); simpl; now rewrite <- ?app_assoc.
Qed.

End Runs.

End PipelineFacts.
Import PipelineFacts.

(* ================================================================== *)
(** * The claims *)

(** ** Compilation (C7) *)

(** C7 -- Compilation shape.  For every sequence of triples the compiler
    builds exactly one statement per triple, in the order of the input, and
    the statement of a triple consists of the MERGE of its subject node, the
    MERGE of its object node and the MERGE of its edge; the query it returns
    is these statements joined by line breaks. *)
Theorem C7_one_statement_per_triple (triples : list Triple) :
  Forall2 statement_of triples (cypher_parts triples)
  /\ generate_cypher_query triples = join nl (cypher_parts triples).
Proof.
  split; [|reflexivity].
  rewrite cypher_parts_eq.
  induction triples as [|t ts IH]; simpl; constructor; auto.
  apply cypher_of_merges.
Qed.

(** ** Order of the extracted triples (C10) *)

Lemma findall_in_text_order isalnum r mk text :
  in_text_order isalnum r mk text (map mk (findall isalnum r text)).
Proof.
  exists (map fst (finditer isalnum r text)); split.
  - unfold findall.
    assert (H : forall hit, In hit (finditer isalnum r text) ->
                            extracted_at isalnum r mk text (fst hit)
                              (mk (snd hit))).
    { intros [p cs] Hin; apply scan_hit in Hin.
      destruct Hin as (_ & n & Hn); rewrite Nat.sub_0_r in Hn.
      exists cs, n; auto. }
    induction (finditer isalnum r text) as [|hit hits IH]; simpl;
      constructor; [apply H; now left|apply IH; intros; apply H; now right].
  - apply scan_sorted.
Qed.

Lemma relation_triple_of t1 rel t2 (ms : list (list str)) :
  Forall (fun t => relation t = rel) (map (triple_of t1 rel t2) ms).
Proof. apply Forall_forall; intros t Hin; apply in_map_iff in Hin.
       now destruct Hin as (m & <- & _). Qed.

(** C10 -- Rule-grouped output order.  For every text, extraction returns
    the USES_TECH triples first, then the CONDUCTS triples, then the
    BELONGS_TO triples; inside each group the triples follow the
    left-to-right order of their matches in the text. *)
Theorem C10_grouped_by_rule (isalnum : cp -> bool) (text : str) :
  exists uses conducts belongs,
    outcome (mock_nlp_to_triples isalnum text)
    = Ok (uses ++ conducts ++ belongs)
    /\ Forall (fun t => relation t = USES_TECH) uses
    /\ Forall (fun t => relation t = CONDUCTS) conducts
    /\ Forall (fun t => relation t = BELONGS_TO) belongs
    /\ in_text_order isalnum re_project uses_tech_of text uses
    /\ in_text_order isalnum re_company_proj conducts_of text conducts
    /\ in_text_order isalnum re_industry belongs_to_of text belongs.
Proof.
  eexists _, _, _; split; [apply mock_nlp_to_triples_outcome|].
  repeat split;
    first [apply relation_triple_of | apply findall_in_text_order].
Qed.

(** The groups are not merged by position: in the third item of the sample
    report the CONDUCTS sentence starts at offset 0 and the USES_TECH
    sentence at offset 25, and the USES_TECH triple comes first. *)
Example grouped_not_by_position :
  map fst (finditer isalnum_latin_hangul re_company_proj text_ccc) = [0]
  /\ map fst (finditer isalnum_latin_hangul re_project text_ccc) = [25]
  /\ map relation (extracted isalnum_latin_hangul text_ccc)
     = [USES_TECH; CONDUCTS].
Proof. vm_compute. auto. Qed.

(** ** Well-formed triples (C9) *)

Lemma well_formed_triple_of t1 rel t2 cs :
  existsb (shape_eqb (t1, rel, t2)) shapes = true ->
  two_names cs -> well_formed (triple_of t1 rel t2 cs) = true.
Proof.
  intros Hs (a & b & -> & (xa & ca & -> & Ha) & (xb & cb & -> & Hb)).
  unfold well_formed, triple_of; simpl n1_type; simpl relation;
    simpl n2_type; simpl n1_name; simpl n2_name.
  rewrite Hs. simpl nth.
  now rewrite !trimmed_strip_snoc.
Qed.

(** C9 -- Triple well-formedness.  Every triple that extraction produces
    has one of the three shapes (Project, USES_TECH, Technology),
    (Company, CONDUCTS, Project), (Company, BELONGS_TO, Industry), and both
    of its names are stripped: not empty, with no white space at either
    end. *)
Theorem C9_triples_well_formed (isalnum : cp -> bool) (text : str) :
  exists ts,
    outcome (mock_nlp_to_triples isalnum text) = Ok ts
    /\ Forall (fun t => well_formed t = true) ts.
Proof.
  exists (extracted isalnum text); split;
    [apply mock_nlp_to_triples_outcome|].
  unfold extracted; rewrite !Forall_app; repeat split;
    apply Forall_forall; intros t Hin; apply in_map_iff in Hin;
    destruct Hin as (cs & <- & Hin);
    apply well_formed_triple_of; try reflexivity.
  - exact (proj1 (Forall_forall _ _)
             (findall_names isalnum re_project text
                (re_project_names isalnum)) _ Hin).
  - exact (proj1 (Forall_forall _ _)
             (findall_names isalnum re_company_proj text
                (re_company_proj_names isalnum)) _ Hin).
  - exact (proj1 (Forall_forall _ _)
             (findall_names isalnum re_industry text
                (re_industry_names isalnum)) _ Hin).
Qed.

(** ** Totality, and where a run can raise (C8) *)

Lemma prints_only (tr : list event) :
  forallb is_print tr = true ->
  calls_sink tr = false /\ writes_file tr = false.
Proof.
  unfold calls_sink, writes_file.
  induction tr as [|[m|n|n c|q] tr IH]; simpl; auto; discriminate.
Qed.

Lemma in_prints (tr : list event) (e : event) :
  forallb is_print tr = true -> In e tr -> is_print e = true.
Proof. intros H; exact (proj1 (forallb_forall _ _) H e). Qed.

Lemma extract_text_never_reports_insertion (w : World) (pdf_path : str) :
  ~ In (Print MsgInsertFailed) (trace (extract_text_from_pdf w pdf_path)).
Proof.
  unfold extract_text_from_pdf.
  destruct (pdf_pages w pdf_path) as [pages|]; simpl.
  - pose proof (read_pages_silent pages []) as Htr.
    destruct (read_pages pages []) as [tr [t|e]]; simpl in *; subst;
      simpl; intuition discriminate.
  - intuition discriminate.
Qed.

(** C8, as the specification states it, fails: a run in which the text was
    acquired and the sink was never contacted ends with an exception when
    the debug file cannot be opened, and, with a writable file, when the
    text puts a lone surrogate into a name. *)
Lemma C8_counterexample :
  (outcome (extract_text_from_pdf (world_read_only sentence_python sink_up)
              report_path) = Ok (document_of sentence_python)
   /\ calls_sink (trace (automated_kg_pipeline isalnum_latin_hangul
                           (world_read_only sentence_python sink_up)
                           report_path)) = false
   /\ outcome (automated_kg_pipeline isalnum_latin_hangul
                 (world_read_only sentence_python sink_up) report_path)
      = Raise OSError)
  /\ (outcome (extract_text_from_pdf (world_of text_surrogate sink_up)
                 report_path) = Ok (document_of text_surrogate)
      /\ calls_sink (trace (automated_kg_pipeline isalnum_latin_hangul
                              (world_of text_surrogate sink_up)
                              report_path)) = false
      /\ outcome (automated_kg_pipeline isalnum_latin_hangul
                    (world_of text_surrogate sink_up) report_path)
         = Raise UnicodeEncodeError).
Proof. repeat split; vm_compute; reflexivity. Qed.

(** C8 (amended) -- Totality on any text, and where a run can raise.  For
    every input text, extraction returns normally with a (possibly empty)
    list of triples, its only effect being its two progress lines;
    compilation, [generate_cypher_query], is a total function of that list.
    In a run that acquired the text, a failed insertion is reported only
    when the sink refused the query, and the run then returns; and a run
    that raises before contacting the sink raises at the unguarded write of
    the debug file: [OSError] when the file cannot be opened or flushed,
    [UnicodeEncodeError] when the compiled query cannot be encoded. *)
Theorem C8_total_and_where_runs_raise (isalnum : cp -> bool) (text : str) :
  exists ts,
    mock_nlp_to_triples isalnum text
    = ([Print MsgNlpStart; Print (MsgNlpCount (List.length ts))], Ok ts)
    /\ (forall w pdf_path,
           outcome (extract_text_from_pdf w pdf_path) = Ok text ->
           In (Print MsgInsertFailed)
             (trace (automated_kg_pipeline isalnum w pdf_path)) ->
           session_run w (generate_cypher_query ts) = None
           /\ outcome (automated_kg_pipeline isalnum w pdf_path) = Ok None)
    /\ (forall w pdf_path e,
           outcome (extract_text_from_pdf w pdf_path) = Ok text ->
           outcome (automated_kg_pipeline isalnum w pdf_path) = Raise e ->
           calls_sink (trace (automated_kg_pipeline isalnum w pdf_path))
           = false ->
           (e = OSError
            /\ (debug_file_ok w = false \/ debug_flush_ok w = false))
           \/ (e = UnicodeEncodeError
               /\ utf8_encodable (generate_cypher_query ts) = false)).
Proof.
  exists (extracted isalnum text); split; [apply mock_nlp_to_triples_eq|].
  split.
  - intros w pdf_path Htext.
    pose proof (extract_text_never_reports_insertion w pdf_path) as Hno.
    destruct (pipeline_run isalnum w pdf_path) as (tr0 & text' & E & Hp & Run).
    rewrite E in Htext, Hno; simpl in Htext, Hno; injection Htext as ->.
    rewrite Run; clear Run; cbv zeta.
    assert (Hhead : forall l,
               In (Print MsgInsertFailed)
                 (([Print MsgBanner; Print (MsgPipelineStart pdf_path);
                    Print MsgBanner] ++ tr0) ++ l) ->
               In (Print MsgInsertFailed) l).
    { intros l H; apply in_app_or in H; destruct H as [H|H]; [|exact H].
      simpl in H; destruct H as [H|[H|[H|H]]]; try discriminate;
        contradiction. }
    destruct text as [|x text].
    { unfold trace; cbn [fst]; intros H.
      rewrite <- (app_nil_r (_ ++ tr0)) in H; apply Hhead in H;
        contradiction. }
    destruct (extracted isalnum (x :: text)) as [|t ts].
    { unfold trace; cbn [fst]; intros H; apply Hhead in H.
      simpl in H; intuition discriminate. }
    destruct (debug_file_ok w);
      [destruct (utf8_encodable (generate_cypher_query (t :: ts)));
       [destruct (debug_flush_ok w);
        [destruct (session_run w (generate_cypher_query (t :: ts)))|]|]|];
      unfold trace; cbn [fst]; intros H; try (apply Hhead in H);
      try (simpl in H; intuition discriminate); auto.
  - intros w pdf_path e Htext.
    destruct (pipeline_run isalnum w pdf_path) as (tr0 & text' & E & Hp & Run).
    rewrite E in Htext; simpl in Htext; injection Htext as ->.
    rewrite Run; clear Run; cbv zeta.
    destruct text as [|x text]; [discriminate|].
    destruct (extracted isalnum (x :: text)) as [|t ts]; [discriminate|].
    destruct (debug_file_ok w) eqn:Hf;
      [|intros [= <-] _; left; auto].
    destruct (utf8_encodable (generate_cypher_query (t :: ts))) eqn:Hu;
      [|intros [= <-] _; right; auto].
    destruct (debug_flush_ok w) eqn:Hl;
      [|intros [= <-] _; left; auto].
    destruct (session_run w (generate_cypher_query (t :: ts)));
      [|discriminate].
    intros _ Hs; exfalso; revert Hs.
    unfold trace, calls_sink; cbn [fst].
    rewrite !existsb_app; simpl.
    now rewrite !orb_true_r.
Qed.

Lemma C8_total_and_where_runs_raise_witness :
  exists ts,
    mock_nlp_to_triples isalnum_latin_hangul (document_of sentence_python)
    = ([Print MsgNlpStart; Print (MsgNlpCount (List.length ts))], Ok ts)
    /\ ((OSError = OSError
         /\ (debug_file_ok (world_read_only sentence_python sink_up) = false
             \/ debug_flush_ok (world_read_only sentence_python sink_up)
                = false))
        \/ (OSError = UnicodeEncodeError
            /\ utf8_encodable (generate_cypher_query ts) = false)).
Proof.
  destruct (C8_total_and_where_runs_raise isalnum_latin_hangul
              (document_of sentence_python)) as (ts & H1 & _ & H2).
  exists ts; split; [exact H1|].
  apply (H2 (world_read_only sentence_python sink_up) report_path OSError);
    vm_compute; reflexivity.
Defined.

(** What a run hands to the sink and to the debug file is the query of the
    triples extracted from the acquired text. *)
Lemma pipeline_query (isalnum : cp -> bool) (w : World) (pdf_path text : str) :
  outcome (extract_text_from_pdf w pdf_path) = Ok text ->
  forall e,
    In e (trace (automated_kg_pipeline isalnum w pdf_path)) ->
    match e with
    | SinkRun q => q = generate_cypher_query (extracted isalnum text)
    | WriteFile _ q => q = generate_cypher_query (extracted isalnum text)
    | Print _ | OpenFile _ => True
    end.
Proof.
  intros Htext e.
  destruct (pipeline_run isalnum w pdf_path) as (tr0 & text' & E & Hp & Run).
  rewrite E in Htext; simpl in Htext; injection Htext as ->.
  rewrite Run; clear Run; cbv zeta.
  assert (H0 : In e tr0 -> match e with
                           | Print _ | OpenFile _ => True
                           | WriteFile _ q | SinkRun q =>
                               q = generate_cypher_query (extracted isalnum text)
                           end).
  { intros Hin; apply (in_prints _ _ Hp) in Hin.
    destruct e; simpl in Hin; auto; discriminate. }
  assert (Fin : forall l, (In e l -> match e with
                           | Print _ | OpenFile _ => True
                           | WriteFile _ q | SinkRun q =>
                               q = generate_cypher_query (extracted isalnum text)
                           end) ->
               In e ([Print MsgBanner; Print (MsgPipelineStart pdf_path);
                      Print MsgBanner] ++ tr0 ++ l) ->
               match e with
               | Print _ | OpenFile _ => True
               | WriteFile _ q | SinkRun q =>
                   q = generate_cypher_query (extracted isalnum text)
               end).
  { intros l Hl; simpl; rewrite in_app_iff.
    intros [<-|[<-|[<-|[H|H]]]]; try exact I; [now apply H0|now apply Hl]. }
  destruct text as [|x text].
  { unfold trace; simpl fst. intros H; apply (Fin []); [intros []|].
    now rewrite app_nil_r. }
  destruct (extracted isalnum (x :: text)) as [|t ts] eqn:Ex.
  { unfold trace; simpl fst. intros H; eapply Fin; [|exact H].
    simpl; intros H'; repeat (destruct H' as [<-|H']; try exact I);
      contradiction. }
  destruct (debug_file_ok w);
    [destruct (utf8_encodable (generate_cypher_query (t :: ts)));
     [destruct (debug_flush_ok w);
      [destruct (session_run w (generate_cypher_query (t :: ts)))|]|]|];
    unfold trace; simpl fst; intros H; (eapply Fin; [|exact H]);
    simpl; intros H';
    repeat (destruct H' as [<-|H']; try exact I; try reflexivity);
    contradiction.
Qed.

(** ** What a run returns (C5, C4) *)

Lemma calls_sink_app (a b : list event) :
  calls_sink (a ++ b) = calls_sink a || calls_sink b.
Proof. apply existsb_app. Qed.

Lemma writes_file_app (a b : list event) :
  writes_file (a ++ b) = writes_file a || writes_file b.
Proof. apply existsb_app. Qed.

(** C5, as the specification states it, fails: on a document without any
    match the run returns [None]; there is no result record, hence none
    with [succeeded = false]. *)
Lemma C5_counterexample :
  outcome (mock_nlp_to_triples isalnum_latin_hangul
             (document_of (u "hello"))) = Ok []
  /\ outcome (automated_kg_pipeline isalnum_latin_hangul
                (world_of (u "hello") sink_up) report_path) = Ok None
  /\ ~ (exists r,
           outcome (automated_kg_pipeline isalnum_latin_hangul
                      (world_of (u "hello") sink_up) report_path)
           = Ok (Some r)
           /\ succeeded r = false /\ statementsSubmitted r = 0).
Proof.
  repeat split; try (vm_compute; reflexivity).
  intros (r & H & _); vm_compute in H; discriminate.
Qed.

(** C5 (amended) -- Empty-input behaviour.  Extraction of the empty text
    returns the empty list, without raising; and when extraction of the
    acquired text yields no triple the orchestrator stops early: it returns
    [None] (no result record), having neither written the debug file nor
    called the sink. *)
Theorem C5_no_triples_no_sink (isalnum : cp -> bool) (w : World)
    (pdf_path text : str) :
  outcome (extract_text_from_pdf w pdf_path) = Ok text ->
  outcome (mock_nlp_to_triples isalnum text) = Ok [] ->
  outcome (mock_nlp_to_triples isalnum []) = Ok []
  /\ outcome (automated_kg_pipeline isalnum w pdf_path) = Ok None
  /\ calls_sink (trace (automated_kg_pipeline isalnum w pdf_path)) = false
  /\ writes_file (trace (automated_kg_pipeline isalnum w pdf_path)) = false.
Proof.
  intros Htext Hnone; split; [reflexivity|].
  rewrite mock_nlp_to_triples_outcome in Hnone; injection Hnone as Hnone.
  destruct (pipeline_run isalnum w pdf_path) as (tr0 & text' & E & Hp & Run).
  rewrite E in Htext; simpl in Htext; injection Htext as ->.
  rewrite Run; clear Run; rewrite Hnone; cbv zeta.
  destruct (prints_only tr0 Hp) as [Hs Hw].
  destruct text as [|x text]; unfold trace, outcome; simpl fst; simpl snd;
    change (Print MsgBanner :: Print (MsgPipelineStart pdf_path)
              :: Print MsgBanner :: ?l)
      with ([Print MsgBanner; Print (MsgPipelineStart pdf_path);
             Print MsgBanner] ++ l);
    rewrite ?calls_sink_app, ?writes_file_app, Hs, Hw; auto.
Qed.

Lemma C5_no_triples_no_sink_witness :
  calls_sink (trace (automated_kg_pipeline isalnum_latin_hangul
                       (world_of (u "hello") sink_up) report_path)) = false.
Proof.
  apply (C5_no_triples_no_sink isalnum_latin_hangul
           (world_of (u "hello") sink_up) report_path
           (document_of (u "hello")));
    vm_compute; reflexivity.
Defined.

(** C4, as the specification states it, fails: with the sink down, the run
    on the sample sentence returns [None], not a result record. *)
Lemma C4_counterexample :
  outcome (automated_kg_pipeline isalnum_latin_hangul
             (world_of sentence_python sink_down) report_path) = Ok None
  /\ ~ (exists r,
           outcome (automated_kg_pipeline isalnum_latin_hangul
                      (world_of sentence_python sink_down) report_path)
           = Ok (Some r)).
Proof.
  split; [vm_compute; reflexivity|].
  intros (r & H); vm_compute in H; discriminate.
Qed.

(** C4 (amended) -- What every run returns.  The orchestrator never returns
    a result record: a run that returns, returns [None].  What happened is
    reported by printed messages only: when the document cannot be read the
    run prints the PDF error and returns [None]; when the sink refuses the
    submitted query the run prints the query error and the failed-insertion
    message and returns [None]. *)
Theorem C4_none_and_messages (isalnum : cp -> bool) (w : World)
    (pdf_path : str) :
  (forall r, outcome (automated_kg_pipeline isalnum w pdf_path)
             <> Ok (Some r))
  /\ (forall v, outcome (automated_kg_pipeline isalnum w pdf_path) = Ok v ->
                v = None)
  /\ (pdf_pages w pdf_path = None ->
      automated_kg_pipeline isalnum w pdf_path
      = ([Print MsgBanner; Print (MsgPipelineStart pdf_path); Print MsgBanner;
          Print MsgPdfError], Ok None))
  /\ (forall q,
         In (SinkRun q) (trace (automated_kg_pipeline isalnum w pdf_path)) ->
         session_run w q = None ->
         outcome (automated_kg_pipeline isalnum w pdf_path) = Ok None
         /\ In (Print MsgQueryError)
              (trace (automated_kg_pipeline isalnum w pdf_path))
         /\ In (Print MsgInsertFailed)
              (trace (automated_kg_pipeline isalnum w pdf_path))).
Proof.
  destruct (pipeline_run isalnum w pdf_path) as (tr0 & text & E & Hp & Run).
  assert (Out : outcome (automated_kg_pipeline isalnum w pdf_path) = Ok None
                \/ exists e,
                     outcome (automated_kg_pipeline isalnum w pdf_path)
                     = Raise e).
  { rewrite Run; cbv zeta.
    destruct text; [now left|].
    destruct (extracted isalnum _); [now left|].
    destruct (debug_file_ok w); [|right; eexists; reflexivity].
    destruct (utf8_encodable _); [|right; eexists; reflexivity].
    destruct (debug_flush_ok w); [|right; eexists; reflexivity].
    destruct (session_run w _); [right; eexists; reflexivity|now left]. }
  split; [|split; [|split]].
  - intros r H; destruct Out as [O|[e O]]; rewrite O in H; discriminate.
  - intros v H; destruct Out as [O|[e O]]; rewrite O in H;
      [now injection H as <-|discriminate].
  - intros Hpdf.
    rewrite (extract_text_from_pdf_failed w pdf_path Hpdf) in E.
    injection E as <- <-. exact Run.
  - intros q Hin Hq.
    pose proof (pipeline_query isalnum w pdf_path text
                  ltac:(now rewrite E) _ Hin) as Eq; simpl in Eq; subst q.
    revert Hin; rewrite Run; clear Run; cbv zeta.
    assert (Hno : forall q', ~ In (SinkRun q') tr0).
    { intros q' Hin; apply (in_prints _ _ Hp) in Hin; discriminate. }
    assert (Hhead : forall l,
               In (SinkRun (generate_cypher_query (extracted isalnum text)))
                 (([Print MsgBanner; Print (MsgPipelineStart pdf_path);
                    Print MsgBanner] ++ tr0) ++ l) ->
               In (SinkRun (generate_cypher_query (extracted isalnum text)))
                 l).
    { intros l H; apply in_app_or in H; destruct H as [H|H]; [|exact H].
      simpl in H; destruct H as [H|[H|[H|H]]]; try discriminate.
      now apply Hno in H. }
    destruct text as [|x text].
    { unfold trace; cbn [fst]; intros H.
      rewrite <- (app_nil_r (_ ++ tr0)) in H; apply Hhead in H;
        contradiction. }
    destruct (extracted isalnum (x :: text)) as [|t ts] eqn:Ex.
    { unfold trace; cbn [fst]; intros H; apply Hhead in H.
      simpl in H; intuition discriminate. }
    destruct (debug_file_ok w);
      [destruct (utf8_encodable (generate_cypher_query (t :: ts)));
       [destruct (debug_flush_ok w)|]|];
      try (unfold trace; cbn [fst]; intros H; apply Hhead in H;
           simpl in H; intuition discriminate).
    rewrite Hq. intros _; split; [reflexivity|].
    unfold trace; cbn [fst]; rewrite !in_app_iff; simpl; intuition.
Qed.

Lemma C4_none_and_messages_witness :
  In (Print MsgInsertFailed)
    (trace (automated_kg_pipeline isalnum_latin_hangul
              (world_of sentence_python sink_down) report_path)).
Proof.
  apply (proj2 (proj2 (proj2 (C4_none_and_messages isalnum_latin_hangul
                                (world_of sentence_python sink_down)
                                report_path)))
           (generate_cypher_query
              (extracted isalnum_latin_hangul (document_of sentence_python)))).
  - vm_compute. do 10 right. left. reflexivity.
  - reflexivity.
Defined.

(** ** The USES_TECH scenario (C3) *)

(** When no match that starts inside [pre] runs beyond it, the scan of
    [pre ++ rest] reaches [rest] with no match pending. *)
Lemma scan_clear isalnum r (rest : str) :
  forall pre pos skip,
    skip <= List.length pre ->
    (forall i cs len,
        i < List.length pre ->
        match_at isalnum r (skipn i (pre ++ rest)) = Some (cs, len) ->
        i + len <= List.length pre) ->
    exists hits,
      scan isalnum r pos skip (pre ++ rest)
      = hits ++ scan isalnum r (pos + List.length pre) 0 rest.
Proof.
  induction pre as [|x pre IH]; intros pos skip Hskip Hclear.
  - simpl in Hskip; replace skip with 0 by lia.
    exists []; simpl; now rewrite Nat.add_0_r.
  - assert (Hclear' : forall i cs len,
               i < List.length pre ->
               match_at isalnum r (skipn i (pre ++ rest)) = Some (cs, len) ->
               i + len <= List.length pre).
    { intros i cs len Hi Hm.
      assert (S i + len <= S (List.length pre))
        by (apply (Hclear (S i) cs len); [simpl; lia|exact Hm]).
      lia. }
    simpl in Hskip |- *.
    replace (pos + S (List.length pre)) with (S pos + List.length pre) by lia.
    destruct skip as [|k].
    + destruct (match_at isalnum r (x :: pre ++ rest)) as [[cs n]|] eqn:E.
      * assert (0 + n <= S (List.length pre))
          by (apply (Hclear 0 cs n); [simpl; lia|exact E]).
        destruct (IH (S pos) (pred n)) as (hits & ->); [lia|auto|].
        now exists ((pos, cs) :: hits).
      * apply IH; [lia|auto].
    + apply IH; [lia|auto].
Qed.

Lemma clear_before_spec isalnum r n text :
  clear_before isalnum r n text = true ->
  forall i cs len,
    i < n -> match_at isalnum r (skipn i text) = Some (cs, len) ->
    i + len <= n.
Proof.
  unfold clear_before; intros H i cs len Hi Hm.
  rewrite forallb_forall in H.
  specialize (H i); rewrite Hm in H.
  apply Nat.leb_le, H, in_seq; lia.
Qed.

Lemma clear_before_intro isalnum r n text :
  (forall i cs len,
      i < n -> match_at isalnum r (skipn i text) = Some (cs, len) ->
      i + len <= n) ->
  clear_before isalnum r n text = true.
Proof.
  intros H; unfold clear_before; apply forallb_forall; intros i Hi.
  apply in_seq in Hi.
  destruct (match_at isalnum r (skipn i text)) as [[cs len]|] eqn:E; auto.
  apply Nat.leb_le, (H i cs len); [lia|exact E].
Qed.

(** A match of the USES_TECH pattern never contains a line feed. *)
Lemma re_project_one_line isalnum w cs :
  matches isalnum re_project w cs -> ~ In 10%N w.
Proof.
  intros H; apply re_project_shape in H.
  destruct H as (id & tech & _ & -> & _ & Hid & _ & Htech).
  rewrite !in_app_iff; intros [H|[H|[H|[H|H]]]].
  - vm_compute in H; intuition discriminate.
  - apply (proj1 (Forall_forall _ _) Hid) in H; discriminate.
  - vm_compute in H; intuition discriminate.
  - apply (proj1 (Forall_forall _ _) Htech) in H; discriminate.
  - vm_compute in H; intuition discriminate.
Qed.

Lemma in_long_prefix (c : cp) (rest s' : str) :
  forall a w,
    a ++ c :: rest = w ++ s' -> List.length a < List.length w -> In c w.
Proof.
  induction a as [|x a IH]; intros [|y w]; simpl; intros E Hlen; try lia.
  - injection E as -> _; now left.
  - injection E as -> E; right; apply (IH _ E); lia.
Qed.

(** Matches of the USES_TECH pattern stay on their line: nothing that
    starts before a line feed reaches beyond it. *)
Lemma line_start_clear isalnum (pre rest : str) :
  clear_before isalnum re_project (List.length (pre ++ nl))
    ((pre ++ nl) ++ rest) = true.
Proof.
  apply clear_before_intro; intros i cs len Hi Hm.
  rewrite length_app in *; simpl in *.
  apply match_at_sound in Hm; destruct Hm as (w & s' & E & Hm & ->).
  apply re_project_one_line in Hm.
  destruct (Nat.le_gt_cases (i + List.length w) (List.length pre + 1))
    as [|Hlong]; [assumption|].
  exfalso; apply Hm.
  rewrite <- app_assoc, skipn_app in E.
  replace (i - List.length pre) with 0 in E by lia; simpl in E.
  apply (in_long_prefix _ _ _ _ _ E).
  rewrite length_skipn; lia.
Qed.

(** The sentence matches the USES_TECH rule at its first character,
    whatever follows. *)
Lemma sentence_python_match isalnum (post : str) :
  match_at isalnum re_project (sentence_python ++ post)
  = Some ([u "프로젝트 AAA"; u "Python 기술"], 20).
Proof. vm_compute. reflexivity. Qed.

Lemma uses_tech_of_python :
  uses_tech_of [u "프로젝트 AAA"; u "Python 기술"] = triple_python.
Proof. vm_compute. reflexivity. Qed.

Lemma scan_head isalnum r pos (x : cp) (s : str) cs n :
  match_at isalnum r (x :: s) = Some (cs, n) ->
  In (pos, cs) (scan isalnum r pos 0 (x :: s)).
Proof. intros H; simpl; rewrite H; now left. Qed.

Lemma sentence_python_cons (post : str) :
  sentence_python ++ post = 54532%N :: (tl sentence_python ++ post).
Proof. reflexivity. Qed.

(** C3, as the specification states it, fails: on the sentence itself the
    technology name that is extracted is "Python 기술", so the triple with
    the object name "Python" is not produced. *)
Lemma C3_counterexample :
  outcome (mock_nlp_to_triples isalnum_latin_hangul sentence_python)
  = Ok [triple_python]
  /\ ~ In triple_python_spec [triple_python].
Proof.
  split; [vm_compute; reflexivity|].
  intros [H|[]]; vm_compute in H; discriminate.
Qed.

(** Where no earlier match runs into it, the sentence is found. *)
Lemma python_triple_found (isalnum : cp -> bool) (pre post : str) :
  clear_before isalnum re_project (List.length pre)
    (pre ++ sentence_python ++ post) = true ->
  In triple_python (extracted isalnum (pre ++ sentence_python ++ post)).
Proof.
  intros Hclear.
  unfold extracted; apply in_or_app; left.
  rewrite <- uses_tech_of_python.
  apply in_map; unfold findall, finditer.
  destruct (scan_clear isalnum re_project (sentence_python ++ post)
              pre 0 0 (Nat.le_0_l _)
              (clear_before_spec _ _ _ _ Hclear)) as (hits & ->).
  rewrite map_app; apply in_or_app; right.
  apply in_map_iff; eexists (_, _); split; [reflexivity|].
  rewrite sentence_python_cons; apply scan_head with (n := 20).
  rewrite <- sentence_python_cons; apply sentence_python_match.
Qed.

(** C3 (amended) -- USES_TECH scenario.  For every text that contains
    "프로젝트 AAA은 Python 기술을" at a place that no earlier match of the
    USES_TECH pattern runs into, extraction yields the triple
    (Project, "프로젝트 AAA", USES_TECH, Technology, "Python 기술"): the
    captured technology name keeps the word " 기술". *)
Theorem C3_python_triple (isalnum : cp -> bool) (pre post : str) :
  clear_before isalnum re_project (List.length pre)
    (pre ++ sentence_python ++ post) = true ->
  exists ts,
    outcome (mock_nlp_to_triples isalnum (pre ++ sentence_python ++ post))
    = Ok ts
    /\ In triple_python ts.
Proof.
  intros Hclear.
  eexists; split; [apply mock_nlp_to_triples_outcome|].
  now apply python_triple_found.
Qed.

Lemma C3_python_triple_witness :
  exists ts,
    outcome (mock_nlp_to_triples isalnum_latin_hangul
               (text_ccc ++ sentence_python ++ nl)) = Ok ts
    /\ In triple_python ts.
Proof.
  apply (C3_python_triple isalnum_latin_hangul text_ccc nl).
  vm_compute; reflexivity.
Defined.

(** The occurrence is not found when an earlier sentence of the same rule
    runs into it. *)
Example overlapped_occurrence :
  clear_before isalnum_latin_hangul re_project 9 text_overlap = false
  /\ outcome (mock_nlp_to_triples isalnum_latin_hangul text_overlap)
     = Ok [(Project, u "프로젝트 B", USES_TECH, Technology,
            u "프로젝트 AAA은 Python 기술")].
Proof. split; vm_compute; reflexivity. Qed.

(** In particular the sentence is found at the start of the text and at
    the start of every line. *)
Corollary python_triple_at_line_start (isalnum : cp -> bool)
    (pre post : str) :
  In triple_python (extracted isalnum (sentence_python ++ post))
  /\ In triple_python
       (extracted isalnum ((pre ++ nl) ++ sentence_python ++ post)).
Proof.
  split.
  - now apply (python_triple_found isalnum [] post).
  - apply python_triple_found, line_start_clear.
Qed.

(** ** Duplicates (C2) *)

Lemma count_occ_map_cypher_of (t : Triple) (ts : list Triple) :
  count_occ triple_eq_dec ts t
  <= count_occ str_eq_dec (map cypher_of ts) (cypher_of t).
Proof.
  induction ts as [|t' ts IH]; simpl; [lia|].
  destruct (triple_eq_dec t' t) as [->|Hne].
  - destruct (str_eq_dec (cypher_of t) (cypher_of t)); [lia|congruence].
  - destruct (str_eq_dec (cypher_of t') (cypher_of t)); lia.
Qed.

(** C2, as the specification states it, fails: the sentence written twice
    yields the same triple twice, and two statements are compiled and
    submitted. *)
Lemma C2_counterexample :
  outcome (mock_nlp_to_triples isalnum_latin_hangul text_twice)
  = Ok [triple_python; triple_python]
  /\ cypher_parts [triple_python; triple_python]
     = [cypher_of triple_python; cypher_of triple_python]
  /\ In (SinkRun (generate_cypher_query [triple_python; triple_python]))
       (trace (automated_kg_pipeline isalnum_latin_hangul
                 (world_of text_twice sink_up) report_path)).
Proof.
  split; [vm_compute; reflexivity|].
  split; [reflexivity|].
  vm_compute. do 10 right. left. reflexivity.
Qed.

Lemma scan_cons_hit isalnum r pos x (s : str) cs n :
  match_at isalnum r (x :: s) = Some (cs, n) ->
  scan isalnum r pos 0 (x :: s)
  = (pos, cs) :: scan isalnum r (S pos) (pred n) s.
Proof. intros H; cbn [scan]; now rewrite H. Qed.

(** A sentence that matches at two places, each of them clear of earlier
    matches, is reported twice by [findall]. *)
Lemma findall_twice isalnum r (pre sentence mid post : str) cs n1 n2 :
  sentence <> [] ->
  match_at isalnum r (sentence ++ mid ++ sentence ++ post) = Some (cs, n1) ->
  match_at isalnum r (sentence ++ post) = Some (cs, n2) ->
  clear_before isalnum r (List.length pre)
    (pre ++ sentence ++ mid ++ sentence ++ post) = true ->
  clear_before isalnum r (List.length (pre ++ sentence ++ mid))
    (pre ++ sentence ++ mid ++ sentence ++ post) = true ->
  2 <= count_occ captures_eq_dec
         (findall isalnum r (pre ++ sentence ++ mid ++ sentence ++ post)) cs.
Proof.
  intros Hne Hm1 Hm2 Hc1 Hc2.
  pose proof (clear_before_spec _ _ _ _ Hc2) as Hclear2.
  rewrite !length_app in Hclear2.
  unfold findall, finditer.
  destruct (scan_clear isalnum r (sentence ++ mid ++ sentence ++ post)
              pre 0 0 (Nat.le_0_l _)
              (clear_before_spec _ _ _ _ Hc1)) as (hits & ->).
  destruct sentence as [|x rest]; [congruence|].
  assert (Hn1 : n1 <= S (List.length rest) + List.length mid).
  { assert (H : List.length pre + n1
                <= List.length pre
                   + (List.length (x :: rest) + List.length mid)).
    { apply (Hclear2 (List.length pre) cs n1);
        [simpl; lia|].
      now rewrite skipn_app, skipn_all, Nat.sub_diag. }
    simpl in H; lia. }
  change ((x :: rest) ++ mid ++ (x :: rest) ++ post)
    with (x :: rest ++ mid ++ (x :: rest) ++ post) in Hm1 |- *.
  rewrite (scan_cons_hit isalnum r _ x _ cs n1 Hm1).
  destruct (scan_clear isalnum r ((x :: rest) ++ post) (rest ++ mid)
              (S (0 + List.length pre)) (pred n1)) as (hits' & E).
  { rewrite length_app; lia. }
  { intros i cs' len Hi Hm.
    rewrite length_app in Hi |- *.
    assert (H : List.length pre + S i + len
                <= List.length pre
                   + (List.length (x :: rest) + List.length mid)).
    { apply (Hclear2 (List.length pre + S i) cs' len);
        [simpl; lia|].
      rewrite skipn_app.
      replace (List.length pre + S i - List.length pre) with (S i) by lia.
      rewrite skipn_all2 by lia; simpl.
      now rewrite <- app_assoc in Hm. }
    simpl in H; lia. }
  rewrite <- app_assoc in E; rewrite E.
  change ((x :: rest) ++ post) with (x :: rest ++ post) in Hm2 |- *.
  rewrite (scan_cons_hit isalnum r _ x _ cs n2 Hm2).
  rewrite !map_app; cbn [map snd].
  rewrite !count_occ_app; cbn [count_occ].
  destruct (captures_eq_dec cs cs); [|congruence].
  rewrite map_app, count_occ_app; cbn [map snd count_occ].
  destruct (captures_eq_dec cs cs); [lia|congruence].
Qed.

Lemma count_occ_map_triple (mk : list str -> Triple) (l : list (list str))
    (cs : list str) :
  count_occ captures_eq_dec l cs <= count_occ triple_eq_dec (map mk l) (mk cs).
Proof.
  induction l as [|c l IH]; simpl; [lia|].
  destruct (captures_eq_dec c cs) as [->|Hne].
  - destruct (triple_eq_dec (mk cs) (mk cs)); [lia|congruence].
  - destruct (triple_eq_dec (mk c) (mk cs)); lia.
Qed.

Lemma extracted_twice isalnum r mk (pre sentence mid post : str) cs n1 n2 :
  In (r, mk) rules ->
  sentence <> [] ->
  match_at isalnum r (sentence ++ mid ++ sentence ++ post) = Some (cs, n1) ->
  match_at isalnum r (sentence ++ post) = Some (cs, n2) ->
  clear_before isalnum r (List.length pre)
    (pre ++ sentence ++ mid ++ sentence ++ post) = true ->
  clear_before isalnum r (List.length (pre ++ sentence ++ mid))
    (pre ++ sentence ++ mid ++ sentence ++ post) = true ->
  2 <= count_occ triple_eq_dec
         (extracted isalnum (pre ++ sentence ++ mid ++ sentence ++ post))
         (mk cs).
Proof.
  intros Hr Hne Hm1 Hm2 Hc1 Hc2.
  pose proof (findall_twice isalnum r pre sentence mid post cs n1 n2
                Hne Hm1 Hm2 Hc1 Hc2) as Hf.
  pose proof (count_occ_map_triple mk
                (findall isalnum r
                   (pre ++ sentence ++ mid ++ sentence ++ post)) cs) as Hmap.
  unfold extracted; rewrite !count_occ_app.
  destruct Hr as [E|[E|[E|[]]]]; injection E as <- <-; lia.
Qed.

(** C2 (amended) -- No deduplication.  For every text the pipeline compiles
    the triples exactly as extraction returned them: one statement per
    extracted triple, in extraction order, a triple that was extracted
    several times being compiled as many times; the query submitted to the
    sink is made of these statements.  In particular a sentence that
    matches one of the rules at two places of the text with the same
    captured names, each place being one that no earlier match of that rule
    runs into, yields its triple at least twice and is compiled into at
    least two equal statements. *)
Theorem C2_duplicates_are_compiled (isalnum : cp -> bool) (text : str) :
  exists ts,
    outcome (mock_nlp_to_triples isalnum text) = Ok ts
    /\ cypher_parts ts = map cypher_of ts
    /\ (forall t, count_occ triple_eq_dec ts t
                  <= count_occ str_eq_dec (cypher_parts ts) (cypher_of t))
    /\ (forall w pdf_path q,
           outcome (extract_text_from_pdf w pdf_path) = Ok text ->
           In (SinkRun q) (trace (automated_kg_pipeline isalnum w pdf_path)) ->
           q = join nl (map cypher_of ts))
    /\ (forall r mk pre sentence mid post cs n1 n2,
           In (r, mk) rules ->
           text = pre ++ sentence ++ mid ++ sentence ++ post ->
           sentence <> [] ->
           match_at isalnum r (sentence ++ mid ++ sentence ++ post)
           = Some (cs, n1) ->
           match_at isalnum r (sentence ++ post) = Some (cs, n2) ->
           clear_before isalnum r (List.length pre) text = true ->
           clear_before isalnum r (List.length (pre ++ sentence ++ mid)) text
           = true ->
           2 <= count_occ triple_eq_dec ts (mk cs)
           /\ 2 <= count_occ str_eq_dec (cypher_parts ts) (cypher_of (mk cs))).
Proof.
  exists (extracted isalnum text); split; [|split; [|split; [|split]]].
  - apply mock_nlp_to_triples_outcome.
  - apply cypher_parts_eq.
  - intros t; rewrite cypher_parts_eq; apply count_occ_map_cypher_of.
  - intros w pdf_path q Htext Hin.
    rewrite <- cypher_parts_eq.
    exact (pipeline_query isalnum w pdf_path text Htext _ Hin).
  - intros r mk pre sentence mid post cs n1 n2 Hr -> Hne Hm1 Hm2 Hc1 Hc2.
    pose proof (extracted_twice isalnum r mk pre sentence mid post cs n1 n2
                  Hr Hne Hm1 Hm2 Hc1 Hc2) as Ht.
    split; [exact Ht|].
    rewrite cypher_parts_eq.
    eapply Nat.le_trans; [exact Ht|apply count_occ_map_cypher_of].
Qed.

Lemma C2_duplicates_are_compiled_witness :
  exists ts,
    outcome (mock_nlp_to_triples isalnum_latin_hangul text_twice) = Ok ts
    /\ 2 <= count_occ triple_eq_dec ts
              (uses_tech_of [u "프로젝트 AAA"; u "Python 기술"]).
Proof.
  destruct (C2_duplicates_are_compiled isalnum_latin_hangul text_twice)
    as (ts & H1 & _ & _ & _ & H5).
  exists ts; split; [exact H1|].
  apply (H5 re_project uses_tech_of [] sentence_python nl []
            [u "프로젝트 AAA"; u "Python 기술"] 20 20);
    try (vm_compute; reflexivity); [left; reflexivity|discriminate].
Defined.

(** ** Quoting of names (C1) *)

Lemma read_quoted_escaped (s : str) :
  read_quoted (backslash :: apostrophe :: s)
  = match read_quoted s with
    | Some (v, rest) => Some (apostrophe :: v, rest)
    | None => None
    end.
Proof. reflexivity. Qed.

Lemma read_quoted_plain (c : cp) (s : str) :
  c <> apostrophe -> c <> backslash ->
  read_quoted (c :: s)
  = match read_quoted s with
    | Some (v, rest) => Some (c :: v, rest)
    | None => None
    end.
Proof.
  intros Hq Hb; apply N.eqb_neq in Hq, Hb; simpl; now rewrite Hq, Hb.
Qed.

Lemma name_safe_cons (c : cp) (name : str) :
  name_safe (c :: name)
  = if (c =? apostrophe)%N then backslash :: apostrophe :: name_safe name
    else c :: name_safe name.
Proof. reflexivity. Qed.

(** Names without a backslash are read back exactly: the replacement of
    the apostrophe is enough for them. *)
Lemma name_safe_read_back (name rest : str) :
  ~ In backslash name ->
  read_quoted (name_safe name ++ apostrophe :: rest) = Some (name, rest).
Proof.
  induction name as [|c name IH]; intros Hno.
  - reflexivity.
  - assert (Hc : c <> backslash) by (intros ->; apply Hno; now left).
    assert (Hrest : ~ In backslash name) by (intros H; apply Hno; now right).
    rewrite name_safe_cons.
    destruct (N.eqb_spec c apostrophe) as [->|Hq].
    + rewrite <- !app_comm_cons, read_quoted_escaped.
      now rewrite (IH Hrest).
    + rewrite <- app_comm_cons, (read_quoted_plain _ _ Hq Hc).
      now rewrite (IH Hrest).
Qed.

(** C1 -- the program at the failing input.  The text
    "프로젝트 A은 \' 기술을" yields a technology name that starts with a
    backslash and an apostrophe; its encoding starts with two backslashes
    and an apostrophe, which the sink reads as an escaped backslash followed
    by the end of the literal: the value read back is a lone backslash, and
    the rest of the name is left over as statement text. *)
Theorem C1_backslash_apostrophe_ends_literal :
  outcome (mock_nlp_to_triples isalnum_latin_hangul text_quote)
  = Ok [triple_quote]
  /\ name_safe name_quote = u "\\' 기술"
  /\ forall rest,
      read_quoted (name_safe name_quote ++ apostrophe :: rest)
      = Some ([backslash], u " 기술'" ++ rest)
      /\ read_quoted (name_safe name_quote ++ apostrophe :: rest)
         <> Some (name_quote, rest).
Proof.
  split; [vm_compute; reflexivity|].
  split; [vm_compute; reflexivity|].
  intros rest; split; [vm_compute; reflexivity|].
  vm_compute; intros H; discriminate.
Qed.

(* ================================================================== *)
(** * Further properties of the program *)

(** ** The matcher finds every word of a pattern *)

Module ReComplete.

Section Completeness.

Variable isalnum : cp -> bool.

Lemma lazy_plus_complete p k (s' : str) :
  forall w pos,
    w <> [] -> Forall (fun x => p x = true) w ->
    k (pos + List.length w) s' <> None ->
    lazy_plus p k pos (w ++ s') <> None.
Proof.
  induction w as [|x w IH]; intros pos Hne Hall Hk; [congruence|].
  inversion Hall as [|? ? Px Hw]; subst; simpl; rewrite Px.
  destruct (k (S pos) (w ++ s')) as [a|] eqn:K; [discriminate|].
  destruct w as [|y w].
  - simpl in *. rewrite Nat.add_1_r in Hk. congruence.
  - apply IH; [discriminate|assumption|].
    simpl in *. now rewrite Nat.add_succ_r in Hk.
Qed.

Lemma greedy_complete p k (s' : str) :
  forall hi lo w pos,
    lo <= List.length w <= hi -> Forall (fun x => p x = true) w ->
    k (pos + List.length w) s' <> None ->
    greedy p lo hi k pos (w ++ s') <> None.
Proof.
  induction hi as [|hi IH]; intros lo w pos Hlen Hall Hk.
  - destruct w; simpl in Hlen; [|lia].
    assert (lo = 0) by lia; subst; simpl in *.
    now rewrite Nat.add_0_r in Hk.
  - destruct w as [|x w].
    + simpl in Hlen. assert (lo = 0) by lia; subst.
      rewrite Nat.add_0_r in Hk. simpl.
      destruct s' as [|y s'']; [exact Hk|].
      destruct (p y); [|exact Hk].
      destruct (greedy p 0 hi k (S pos) s''); [discriminate|exact Hk].
    + inversion Hall as [|? ? Px Hw]; subst.
      assert (G : greedy p (pred lo) hi k (S pos) (w ++ s') <> None).
      { apply IH; [simpl in Hlen; lia|assumption|].
        simpl in Hk. now rewrite Nat.add_succ_r in Hk. }
      simpl; rewrite Px.
      destruct (greedy p (pred lo) hi k (S pos) (w ++ s'));
        [discriminate|congruence].
Qed.

(** Completeness of the backtracking matcher: when the text starts with a
    word of the pattern after which the continuation succeeds, the matcher
    answers (possibly with an alternative of higher priority). *)
Lemma rmatch_complete r w cs :
  matches isalnum r w cs ->
  forall k pos s' caps,
    k (pos + List.length w) s' (caps ++ cs) <> None ->
    rmatch isalnum r k pos (w ++ s') caps <> None.
Proof.
  induction 1 as [l|c w Hne Hall|c lo hi w Hlen Hall
                  |r1 r2 w1 w2 c1 c2 _ IH1 _ IH2|r w c _ IH];
    intros k pos s' caps Hk; simpl.
  - rewrite eat_app. now rewrite app_nil_r in Hk.
  - apply lazy_plus_complete; auto. now rewrite app_nil_r in Hk.
  - apply greedy_complete; auto. now rewrite app_nil_r in Hk.
  - rewrite <- app_assoc. apply IH1, IH2.
    now rewrite length_app, Nat.add_assoc, app_assoc in Hk.
  - apply IH.
    replace (pos + List.length w - pos) with (List.length w + 0) by lia.
    rewrite firstn_app_2; simpl. now rewrite app_nil_r, <- app_assoc.
Qed.

Lemma match_at_complete r w cs (s' : str) :
  matches isalnum r w cs -> match_at isalnum r (w ++ s') <> None.
Proof.
  intros H; unfold match_at.
  apply (rmatch_complete _ _ _ H); discriminate.
Qed.

(** A scan that reports nothing has tried, and failed, at every offset. *)
Lemma scan_nothing r :
  forall text pos i,
    scan isalnum r pos 0 text = [] ->
    match_at isalnum r (skipn i text) = None.
Proof.
  induction text as [|x text IH]; intros pos i; simpl.
  - rewrite skipn_nil.
    destruct (match_at isalnum r []) as [[cs n]|]; [discriminate|reflexivity].
  - destruct (match_at isalnum r (x :: text)) as [[cs n]|] eqn:E;
      [discriminate|].
    intros Hs; destruct i as [|i]; [exact E|].
    simpl; eapply IH; eauto.
Qed.

(** A text that contains a word of the pattern has at least one match. *)
Lemma findall_finds r w cs (pre post : str) :
  matches isalnum r w cs -> findall isalnum r (pre ++ w ++ post) <> [].
Proof.
  intros Hm Hnil.
  apply (match_at_complete _ _ _ post) in Hm; apply Hm.
  unfold findall, finditer in Hnil; apply map_eq_nil in Hnil.
  pose proof (scan_nothing r _ 0 (List.length pre) Hnil) as H.
  now rewrite skipn_app, skipn_all, Nat.sub_diag in H.
Qed.

End Completeness.

End ReComplete.
Import ReComplete.

(** ** Sentences of the three forms are extracted *)

Lemma forallb_upper_class isalnum (id : str) :
  forallb upper id = true ->
  Forall (fun x => in_class isalnum A_Z x = true) id.
Proof. intros H; apply Forall_forall; intros x Hx.
       exact (proj1 (forallb_forall _ _) H x Hx). Qed.

Lemma absent_line_feed_class isalnum (s : str) :
  absent 10%N s = true ->
  Forall (fun x => in_class isalnum Dot x = true) s.
Proof.
  unfold absent; intros H; apply negb_true_iff in H.
  apply Forall_forall; intros x Hx; simpl.
  destruct (N.eqb_spec x 10) as [->|]; [|reflexivity].
  exfalso.
  assert (E : existsb (N.eqb 10) s = true)
    by (apply existsb_exists; exists 10%N; split; auto).
  congruence.
Qed.

Lemma forallb_word_class isalnum (s : str) :
  forallb (in_class isalnum Word) s = true ->
  Forall (fun x => in_class isalnum Word x = true) s.
Proof. intros H; apply Forall_forall; intros x Hx.
       exact (proj1 (forallb_forall _ _) H x Hx). Qed.

Lemma uses_tech_sentence_matches isalnum (id tech : str) :
  1 <= List.length id <= 3 -> forallb upper id = true ->
  tech <> [] -> absent 10%N tech = true ->
  exists cs, matches isalnum re_project (uses_tech_sentence id tech) cs.
Proof.
  intros Hlen Hid Hne Htech.
  replace (uses_tech_sentence id tech)
    with ((u "프로젝트 " ++ id) ++ u "은 " ++ (tech ++ u " 기술") ++ u "을")
    by (unfold uses_tech_sentence; now rewrite <- !app_assoc).
  eexists; unfold re_project.
  repeat first [ apply M_Cat | apply M_Group ];
    try apply M_Str.
  - apply M_Greedy; [lia|now apply forallb_upper_class].
  - apply M_Lazy; [assumption|now apply absent_line_feed_class].
Qed.

Lemma conducts_sentence_matches isalnum (comp id : str) :
  comp <> [] -> forallb (in_class isalnum Word) comp = true ->
  1 <= List.length id <= 3 -> forallb upper id = true ->
  exists cs, matches isalnum re_company_proj (conducts_sentence comp id) cs.
Proof.
  intros Hne Hcomp Hlen Hid.
  replace (conducts_sentence comp id)
    with ((comp ++ u " 컴퍼니") ++ u "에서 " ++ (u "프로젝트 " ++ id)
          ++ u "를 수행")
    by (unfold conducts_sentence; now rewrite <- !app_assoc).
  eexists; unfold re_company_proj.
  repeat first [ apply M_Cat | apply M_Group ];
    try apply M_Str.
  - apply M_Lazy; [assumption|now apply forallb_word_class].
  - apply M_Greedy; [lia|now apply forallb_upper_class].
Qed.

Lemma belongs_to_sentence_matches isalnum (comp ind : str) :
  comp <> [] -> forallb (in_class isalnum Word) comp = true ->
  ind <> [] -> absent 10%N ind = true ->
  exists cs, matches isalnum re_industry (belongs_to_sentence comp ind) cs.
Proof.
  intros Hne Hcomp Hni Hind.
  replace (belongs_to_sentence comp ind)
    with ((comp ++ u " 컴퍼니") ++ u "는 " ++ (ind ++ u " 산업")
          ++ u " 분야의")
    by (unfold belongs_to_sentence; now rewrite <- !app_assoc).
  eexists; unfold re_industry.
  repeat first [ apply M_Cat | apply M_Group ];
    try apply M_Str.
  - apply M_Lazy; [assumption|now apply forallb_word_class].
  - apply M_Lazy; [assumption|now apply absent_line_feed_class].
Qed.

Lemma first_of_nonempty_map (mk : list str -> Triple) (rel : str)
    (ms : list (list str)) :
  ms <> [] -> (forall m, relation (mk m) = rel) ->
  exists t, In t (map mk ms) /\ relation t = rel.
Proof.
  destruct ms as [|m ms]; [congruence|].
  intros _ H; exists (mk m); split; [now left|apply H].
Qed.

(** X1 -- A text that contains a sentence "프로젝트 <1 to 3 capitals>은
    <technology> 기술을", the technology being non-empty and on one line,
    yields at least one USES_TECH triple, wherever the sentence stands. *)
Theorem uses_tech_sentence_extracted (isalnum : cp -> bool)
    (pre id tech post : str) :
  1 <= List.length id <= 3 -> forallb upper id = true ->
  tech <> [] -> absent 10%N tech = true ->
  exists ts t,
    outcome (mock_nlp_to_triples isalnum
               (pre ++ uses_tech_sentence id tech ++ post)) = Ok ts
    /\ In t ts /\ relation t = USES_TECH.
Proof.
  intros Hlen Hid Hne Htech.
  destruct (uses_tech_sentence_matches isalnum id tech Hlen Hid Hne Htech)
    as (cs & Hm).
  destruct (first_of_nonempty_map uses_tech_of USES_TECH _
              (findall_finds isalnum _ _ _ pre post Hm)
              (fun _ => eq_refl)) as (t & Hin & Hrel).
  exists (extracted isalnum (pre ++ uses_tech_sentence id tech ++ post)), t.
  split; [apply mock_nlp_to_triples_outcome|].
  split; [|exact Hrel].
  unfold extracted; apply in_or_app; now left.
Qed.

Lemma uses_tech_sentence_extracted_witness :
  exists ts t,
    outcome (mock_nlp_to_triples isalnum_latin_hangul
               (u "요약: " ++ uses_tech_sentence (u "BB") (u "AWS") ++ u " 사용"))
    = Ok ts
    /\ In t ts /\ relation t = USES_TECH.
Proof.
  apply (uses_tech_sentence_extracted isalnum_latin_hangul
           (u "요약: ") (u "BB") (u "AWS") (u " 사용"));
    try (vm_compute; reflexivity); [vm_compute; lia|discriminate].
Defined.

(** X2 -- A text that contains a sentence "<company> 컴퍼니에서 프로젝트
    <1 to 3 capitals>를 수행", the company being a non-empty run of word
    characters, yields at least one CONDUCTS triple. *)
Theorem conducts_sentence_extracted (isalnum : cp -> bool)
    (pre comp id post : str) :
  comp <> [] -> forallb (in_class isalnum Word) comp = true ->
  1 <= List.length id <= 3 -> forallb upper id = true ->
  exists ts t,
    outcome (mock_nlp_to_triples isalnum
               (pre ++ conducts_sentence comp id ++ post)) = Ok ts
    /\ In t ts /\ relation t = CONDUCTS.
Proof.
  intros Hne Hcomp Hlen Hid.
  destruct (conducts_sentence_matches isalnum comp id Hne Hcomp Hlen Hid)
    as (cs & Hm).
  destruct (first_of_nonempty_map conducts_of CONDUCTS _
              (findall_finds isalnum _ _ _ pre post Hm)
              (fun _ => eq_refl)) as (t & Hin & Hrel).
  exists (extracted isalnum (pre ++ conducts_sentence comp id ++ post)), t.
  split; [apply mock_nlp_to_triples_outcome|].
  split; [|exact Hrel].
  unfold extracted; apply in_or_app; right; apply in_or_app; now left.
Qed.

Lemma conducts_sentence_extracted_witness :
  exists ts t,
    outcome (mock_nlp_to_triples isalnum_latin_hangul
               (u "그리고 " ++ conducts_sentence (u "B") (u "BBB") ++ u "했습니다."))
    = Ok ts
    /\ In t ts /\ relation t = CONDUCTS.
Proof.
  apply (conducts_sentence_extracted isalnum_latin_hangul
           (u "그리고 ") (u "B") (u "BBB") (u "했습니다."));
    try (vm_compute; reflexivity); [discriminate|vm_compute; lia].
Defined.

(** X3 -- A text that contains a sentence "<company> 컴퍼니는 <industry>
    산업 분야의", the company being a non-empty run of word characters and
    the industry non-empty and on one line, yields at least one BELONGS_TO
    triple. *)
Theorem belongs_to_sentence_extracted (isalnum : cp -> bool)
    (pre comp ind post : str) :
  comp <> [] -> forallb (in_class isalnum Word) comp = true ->
  ind <> [] -> absent 10%N ind = true ->
  exists ts t,
    outcome (mock_nlp_to_triples isalnum
               (pre ++ belongs_to_sentence comp ind ++ post)) = Ok ts
    /\ In t ts /\ relation t = BELONGS_TO.
Proof.
  intros Hne Hcomp Hni Hind.
  destruct (belongs_to_sentence_matches isalnum comp ind Hne Hcomp Hni Hind)
    as (cs & Hm).
  destruct (first_of_nonempty_map belongs_to_of BELONGS_TO _
              (findall_finds isalnum _ _ _ pre post Hm)
              (fun _ => eq_refl)) as (t & Hin & Hrel).
  exists (extracted isalnum (pre ++ belongs_to_sentence comp ind ++ post)), t.
  split; [apply mock_nlp_to_triples_outcome|].
  split; [|exact Hrel].
  unfold extracted; apply in_or_app; right; apply in_or_app; now right.
Qed.

Lemma belongs_to_sentence_extracted_witness :
  exists ts t,
    outcome (mock_nlp_to_triples isalnum_latin_hangul
               (u "서론: " ++ belongs_to_sentence (u "A") (u "금융") ++ u " 선두"))
    = Ok ts
    /\ In t ts /\ relation t = BELONGS_TO.
Proof.
  apply (belongs_to_sentence_extracted isalnum_latin_hangul
           (u "서론: ") (u "A") (u "금융") (u " 선두"));
    try (vm_compute; reflexivity); discriminate.
Defined.

(** ** The names of the extracted triples *)

Lemma findall_matches isalnum r text cs :
  In cs (findall isalnum r text) -> exists w, matches isalnum r w cs.
Proof.
  intros Hin.
  apply in_map_iff in Hin; destruct Hin as ([p cs'] & <- & Hin).
  apply scan_hit in Hin; destruct Hin as (_ & n & Hm).
  apply match_at_sound in Hm; destruct Hm as (w & s' & _ & Hm & _).
  simpl; eauto.
Qed.

Lemma starts_with_app (prefix s : str) : starts_with prefix (prefix ++ s) = true.
Proof. unfold starts_with; now rewrite eat_app. Qed.

Lemma ends_with_app (body suffix : str) : ends_with suffix (body ++ suffix) = true.
Proof. unfold ends_with; rewrite rev_app_distr; apply starts_with_app. Qed.

Lemma lstrip_keeps_suffix (suffix : str) (c : cp) (rest : str) :
  suffix = c :: rest -> isspace c = false ->
  forall x, exists body, lstrip (x ++ suffix) = body ++ suffix.
Proof.
  intros -> Hc; induction x as [|y x IH]; simpl.
  - exists []; now rewrite Hc.
  - destruct (isspace y); [exact IH|].
    now exists (y :: x).
Qed.

(** Stripping keeps a suffix that starts and ends with a visible
    character. *)
Lemma strip_keeps_suffix (x front : str) (c d : cp) :
  isspace c = false -> isspace d = false ->
  exists body,
    strip (x ++ c :: front ++ [d]) = body ++ c :: front ++ [d].
Proof.
  intros Hc Hd.
  destruct (lstrip_keeps_suffix (c :: front ++ [d]) c (front ++ [d])
              eq_refl Hc x) as (body & E).
  exists body; unfold strip; rewrite E.
  change (body ++ c :: front ++ [d]) with (body ++ (c :: front) ++ [d]).
  rewrite app_assoc. now apply rstrip_snoc.
Qed.

Lemma strip_project_name isalnum (id : str) :
  1 <= List.length id <= 3 ->
  Forall (fun x => in_class isalnum A_Z x = true) id ->
  strip (u "프로젝트 " ++ id) = u "프로젝트 " ++ id
  /\ project_name (u "프로젝트 " ++ id) = true.
Proof.
  intros Hlen Hid; split.
  - destruct (exists_last (l := id)) as (body & c & ->).
    { destruct id; simpl in Hlen; [lia|discriminate]. }
    apply Forall_app in Hid; destruct Hid as [_ Hc].
    inversion Hc as [|? ? Hc' _]; subst.
    rewrite app_assoc, strip_snoc by now apply upper_not_space.
    reflexivity.
  - unfold project_name; rewrite eat_app.
    destruct Hlen as [H1 H3].
    apply Nat.leb_le in H1, H3; rewrite H1, H3; simpl.
    apply forallb_forall; intros x Hx.
    exact (proj1 (Forall_forall _ _) Hid x Hx).
Qed.

Lemma ends_with_strip (x front : str) (c d : cp) :
  isspace c = false -> isspace d = false ->
  ends_with (c :: front ++ [d]) (strip (x ++ c :: front ++ [d])) = true.
Proof.
  intros Hc Hd.
  destruct (strip_keeps_suffix x front c d Hc Hd) as (body & ->).
  apply ends_with_app.
Qed.

(** X4 -- The names of every extracted triple have the form of its rule: a
    project name is "프로젝트 " followed by one to three capital letters, a
    technology name ends with "기술", a company name with "컴퍼니" and an
    industry name with "산업". *)
Theorem extracted_names_rule_shaped (isalnum : cp -> bool) (text : str) :
  exists ts,
    outcome (mock_nlp_to_triples isalnum text) = Ok ts
    /\ forallb rule_shaped ts = true.
Proof.
  exists (extracted isalnum text); split;
    [apply mock_nlp_to_triples_outcome|].
  unfold extracted; rewrite !forallb_app, !andb_true_iff; repeat split;
    apply forallb_forall; intros t Hin; apply in_map_iff in Hin;
    destruct Hin as (cs & <- & Hin).
  - destruct (findall_matches isalnum re_project text cs Hin) as (w & Hm).
    pose proof (re_project_shape isalnum w cs Hm)
      as (id & tech & -> & _ & Hlen & Hid & _ & _).
    destruct (strip_project_name isalnum id Hlen Hid) as [E Hp].
    unfold rule_shaped, uses_tech_of, triple_of;
      cbn [relation n1_name n2_name nth].
    change (str_eqb USES_TECH USES_TECH) with true; cbv iota.
    rewrite E, Hp; simpl.
    change (tech ++ u " 기술")
      with (tech ++ [32%N] ++ 44592%N :: [] ++ [49696%N]).
    rewrite app_assoc.
    exact (ends_with_strip (tech ++ [32%N]) [] 44592%N 49696%N
             eq_refl eq_refl).
  - destruct (findall_matches isalnum re_company_proj text cs Hin) as (w & Hm).
    pose proof (re_company_proj_shape isalnum w cs Hm)
      as (comp & id & -> & _ & _ & _ & Hlen & Hid).
    destruct (strip_project_name isalnum id Hlen Hid) as [E Hp].
    unfold rule_shaped, conducts_of, triple_of;
      cbn [relation n1_name n2_name nth].
    change (str_eqb CONDUCTS USES_TECH) with false;
      change (str_eqb CONDUCTS CONDUCTS) with true; cbv iota.
    rewrite E, Hp, andb_true_r.
    change (comp ++ u " 컴퍼니")
      with (comp ++ [32%N] ++ 52980%N :: [54140%N] ++ [45768%N]).
    rewrite app_assoc.
    exact (ends_with_strip (comp ++ [32%N]) [54140%N] 52980%N 45768%N
             eq_refl eq_refl).
  - destruct (findall_matches isalnum re_industry text cs Hin) as (w & Hm).
    pose proof (re_industry_shape isalnum w cs Hm)
      as (comp & ind & -> & _ & _ & _ & _ & _).
    unfold rule_shaped, belongs_to_of, triple_of;
      cbn [relation n1_name n2_name nth].
    change (str_eqb BELONGS_TO USES_TECH) with false;
      change (str_eqb BELONGS_TO CONDUCTS) with false;
      change (str_eqb BELONGS_TO BELONGS_TO) with true; cbv iota.
    apply andb_true_iff; split.
    + change (comp ++ u " 컴퍼니")
        with (comp ++ [32%N] ++ 52980%N :: [54140%N] ++ [45768%N]).
      rewrite app_assoc.
      exact (ends_with_strip (comp ++ [32%N]) [54140%N] 52980%N 45768%N
               eq_refl eq_refl).
    + change (ind ++ u " 산업")
        with (ind ++ [32%N] ++ 49328%N :: [] ++ [50629%N]).
      rewrite app_assoc.
      exact (ends_with_strip (ind ++ [32%N]) [] 49328%N 50629%N
               eq_refl eq_refl).
Qed.

Lemma in_lstrip (c : cp) (s : str) : In c (lstrip s) -> In c s.
Proof.
  induction s as [|x s IH]; simpl; auto.
  destruct (isspace x); auto.
Qed.

Lemma in_strip (c : cp) (s : str) : In c (strip s) -> In c s.
Proof.
  unfold strip, rstrip; intros H.
  apply in_rev, in_lstrip, in_rev, in_lstrip in H. exact H.
Qed.

Lemma absent_intro (c : cp) (s : str) : ~ In c s -> absent c s = true.
Proof.
  intros H; unfold absent; apply negb_true_iff.
  destruct (existsb (N.eqb c) s) eqn:E; [|reflexivity].
  apply existsb_exists in E; destruct E as (x & Hx & Heq).
  apply N.eqb_eq in Heq; subst; contradiction.
Qed.

Lemma absent_elim (c : cp) (s : str) : absent c s = true -> ~ In c s.
Proof.
  unfold absent; intros H Hin; apply negb_true_iff in H.
  assert (E : existsb (N.eqb c) s = true)
    by (apply existsb_exists; exists c; split; [assumption|apply N.eqb_refl]).
  congruence.
Qed.

Lemma dot_no_line_feed isalnum (s : str) :
  Forall (fun x => in_class isalnum Dot x = true) s -> ~ In 10%N s.
Proof.
  intros H Hin; apply (proj1 (Forall_forall _ _) H) in Hin; discriminate.
Qed.

Lemma upper_no_line_feed isalnum (s : str) :
  Forall (fun x => in_class isalnum A_Z x = true) s -> ~ In 10%N s.
Proof.
  intros H Hin; apply (proj1 (Forall_forall _ _) H) in Hin; discriminate.
Qed.

(** X5 -- No object name spans lines: the technology, project and industry
    names of the extracted triples never contain a line feed. *)
Theorem object_names_on_one_line (isalnum : cp -> bool) (text : str) :
  exists ts,
    outcome (mock_nlp_to_triples isalnum text) = Ok ts
    /\ forallb (fun t => absent 10%N (n2_name t)) ts = true.
Proof.
  exists (extracted isalnum text); split;
    [apply mock_nlp_to_triples_outcome|].
  unfold extracted; rewrite !forallb_app, !andb_true_iff; repeat split;
    apply forallb_forall; intros t Hin; apply in_map_iff in Hin;
    destruct Hin as (cs & <- & Hin); apply absent_intro; intros H10;
    apply in_strip in H10.
  - destruct (findall_matches isalnum re_project text cs Hin) as (w & Hm).
    pose proof (re_project_shape isalnum w cs Hm)
      as (id & tech & -> & _ & _ & _ & _ & Htech).
    cbn [nth] in H10; apply in_app_or in H10; destruct H10 as [H|H].
    + now apply (dot_no_line_feed isalnum tech).
    + vm_compute in H; intuition discriminate.
  - destruct (findall_matches isalnum re_company_proj text cs Hin) as (w & Hm).
    pose proof (re_company_proj_shape isalnum w cs Hm)
      as (comp & id & -> & _ & _ & _ & _ & Hid).
    cbn [nth] in H10; apply in_app_or in H10; destruct H10 as [H|H].
    + vm_compute in H; intuition discriminate.
    + now apply (upper_no_line_feed isalnum id).
  - destruct (findall_matches isalnum re_industry text cs Hin) as (w & Hm).
    pose proof (re_industry_shape isalnum w cs Hm)
      as (comp & ind & -> & _ & _ & _ & _ & Hind).
    cbn [nth] in H10; apply in_app_or in H10; destruct H10 as [H|H].
    + now apply (dot_no_line_feed isalnum ind).
    + vm_compute in H; intuition discriminate.
Qed.

(** ** Which match the quantifiers choose *)

Module RePriority.

Lemma eat_app_split (a b s : str) :
  eat (a ++ b) s = match eat a s with
                   | Some s' => eat b s'
                   | None => None
                   end.
Proof.
  revert s; induction a as [|x a IH]; intros s; simpl.
  - now destruct b.
  - destruct s as [|y s]; [reflexivity|].
    destruct (x =? y)%N; [apply IH|reflexivity].
Qed.

(** [c{lo,hi}] takes the whole run [id] when it cannot take more and the
    rest of the pattern succeeds after it. *)
Lemma greedy_exact p k (s1 : str) a :
  forall hi lo id pos,
    lo <= List.length id <= hi ->
    Forall (fun x => p x = true) id ->
    List.length id = hi
    \/ match s1 with x :: _ => p x = false | [] => True end ->
    k (pos + List.length id) s1 = Some a ->
    greedy p lo hi k pos (id ++ s1) = Some a.
Proof.
  induction hi as [|hi IH]; intros lo id pos Hlen Hall Hstop Hk.
  - destruct id; simpl in Hlen; [|lia].
    assert (lo = 0) by lia; subst; simpl in *.
    now rewrite Nat.add_0_r in Hk.
  - destruct id as [|x id].
    + simpl in Hlen, Hstop. assert (lo = 0) by lia; subst.
      rewrite Nat.add_0_r in Hk. destruct Hstop as [|Hstop]; [lia|].
      simpl. destruct s1 as [|y s1]; [exact Hk|].
      now rewrite Hstop.
    + inversion Hall as [|? ? Px Hw]; subst.
      simpl; rewrite Px.
      rewrite (IH (pred lo) id (S pos)); auto.
      * simpl in Hlen; lia.
      * simpl in Hstop; destruct Hstop; [left; lia|now right].
      * simpl in Hk. now rewrite Nat.add_succ_r in Hk.
Qed.

(** [c+?] stops after [w] when the rest of the pattern succeeds there and
    at no earlier place. *)
Lemma lazy_exact p k (s' : str) a :
  forall w pos,
    w <> [] -> Forall (fun x => p x = true) w ->
    k (pos + List.length w) s' = Some a ->
    (forall w1 w2,
        w = w1 ++ w2 -> w1 <> [] -> w2 <> [] ->
        k (pos + List.length w1) (w2 ++ s') = None) ->
    lazy_plus p k pos (w ++ s') = Some a.
Proof.
  induction w as [|x w IH]; intros pos Hne Hall Hk Hmin; [congruence|].
  inversion Hall as [|? ? Px Hw]; subst; simpl; rewrite Px.
  destruct w as [|y w].
  - simpl in *. rewrite Nat.add_1_r in Hk. now rewrite Hk.
  - assert (K : k (S pos) ((y :: w) ++ s') = None).
    { pose proof (Hmin [x] (y :: w) eq_refl) as H.
      simpl List.length in H; rewrite Nat.add_1_r in H;
        apply H; discriminate. }
    rewrite K.
    apply IH; [discriminate|assumption| |].
    + simpl in *. now rewrite Nat.add_succ_r in Hk.
    + intros w1 w2 E H1 H2.
      replace (S pos + List.length w1) with (pos + List.length (x :: w1))
        by (simpl; lia).
      apply Hmin; auto; [now rewrite E|discriminate].
Qed.

Lemma occurs_suffix (pat w1 w2 : str) :
  starts_with pat w2 = true -> occurs pat (w1 ++ w2) = true.
Proof.
  intros H; induction w1 as [|x w1 IH]; simpl.
  - destruct w2; simpl in *; now rewrite H.
  - now rewrite IH, orb_true_r.
Qed.

End RePriority.
Import RePriority.

(** ** The exact triple of a sentence *)

Lemma firstn_exact (l l' : str) (n : nat) :
  n = List.length l -> firstn n (l ++ l') = l.
Proof.
  intros ->. rewrite <- (Nat.add_0_r (List.length l)), firstn_app_2.
  simpl; apply app_nil_r.
Qed.

Lemma no_early_stop (w1 w2 post : str) :
  occurs (u " 기술을") (w1 ++ w2) = false -> w2 <> [] ->
  eat (u " 기술을") (w2 ++ u " 기술을" ++ post) = None.
Proof.
  intros Hocc Hne.
  assert (Hs : starts_with (u " 기술을") w2 = false).
  { destruct (starts_with (u " 기술을") w2) eqn:E; [|reflexivity].
    now rewrite (occurs_suffix _ w1 w2 E) in Hocc. }
  clear Hocc.
  destruct (eat (u " 기술을") (w2 ++ u " 기술을" ++ post)) as [r|] eqn:E;
    [exfalso|reflexivity].
  apply eat_spec in E.
  change (u " 기술을") with [32%N; 44592%N; 49696%N; 51012%N] in *.
  destruct w2 as [|a [|b [|c [|d w2]]]]; [congruence| | | |];
    simpl in E; injection E; intros; subst; discriminate.
Qed.

Lemma uses_tech_sentence_match isalnum (id tech post : str) :
  1 <= List.length id <= 3 -> forallb upper id = true ->
  tech <> [] -> absent 10%N tech = true ->
  occurs (u " 기술을") tech = false ->
  match_at isalnum re_project (uses_tech_sentence id tech ++ post)
  = Some ([u "프로젝트 " ++ id; tech ++ u " 기술"],
          List.length (uses_tech_sentence id tech)).
Proof.
  intros Hlen Hid Hne Htech Hocc.
  unfold match_at, re_project, uses_tech_sentence.
  rewrite <- !app_assoc.
  cbn [rmatch].
  rewrite eat_app.
  apply greedy_exact;
    [lia|now apply forallb_upper_class|right; reflexivity|].
  change (u "은 ") with [51008%N; 32%N].
  rewrite eat_app.
  apply lazy_exact;
    [assumption|now apply absent_line_feed_class| |].
  - change (u " 기술을") with ([32%N; 44592%N; 49696%N] ++ [51012%N]).
    rewrite <- app_assoc, eat_app, eat_app.
    f_equal; f_equal.
    + match goal with
      | |- ([] ++ [?a]) ++ [?b] = _ =>
          change ([a; b] = [u "프로젝트 " ++ id; tech ++ u " 기술"])
      end.
      f_equal; [|f_equal].
      * rewrite (app_assoc (u "프로젝트 ") id); apply firstn_exact.
        rewrite length_app; change (List.length (u "프로젝트 ")) with 5.
        simpl; lia.
      * rewrite (app_assoc tech); apply firstn_exact.
        rewrite length_app; simpl; lia.
    + rewrite !length_app.
      change (List.length (u "프로젝트 ")) with 5.
      change (List.length (u "은 ")) with 2.
      change (List.length (u " 기술을")) with 4.
      simpl; lia.
  - intros w1 w2 E H1 H2.
    pose proof (no_early_stop w1 w2 post ltac:(now rewrite <- E) H2) as Hn.
    change (u " 기술을") with ([32%N; 44592%N; 49696%N] ++ [51012%N]) in Hn at 1.
    rewrite eat_app_split in Hn.
    destruct (eat [32%N; 44592%N; 49696%N] (w2 ++ u " 기술을" ++ post));
      [|reflexivity].
    now rewrite Hn.
Qed.

Lemma scan_first isalnum r pos (s : str) cs n :
  match_at isalnum r s = Some (cs, n) ->
  In (pos, cs) (scan isalnum r pos 0 s).
Proof.
  intros H; destruct s as [|x s]; simpl; rewrite H; now left.
Qed.

(** A sentence that matches where it stands, at a place no earlier match
    runs into, contributes its triple. *)
Lemma sentence_found isalnum r (mk : list str -> Triple)
    (pre sentence post : str) cs n :
  clear_before isalnum r (List.length pre) (pre ++ sentence ++ post) = true ->
  match_at isalnum r (sentence ++ post) = Some (cs, n) ->
  In (mk cs) (map mk (findall isalnum r (pre ++ sentence ++ post))).
Proof.
  intros Hclear Hm.
  apply in_map; unfold findall, finditer.
  destruct (scan_clear isalnum r (sentence ++ post) pre 0 0 (Nat.le_0_l _)
              (clear_before_spec _ _ _ _ Hclear)) as (hits & ->).
  rewrite map_app; apply in_or_app; right.
  apply in_map_iff; eexists (_, _); split; [reflexivity|].
  eapply scan_first; eauto.
Qed.

(** X6 -- The USES_TECH scenario in general.  For a sentence "프로젝트
    <id>은 <tech> 기술을" with one to three capitals as [id] and a non-empty
    one-line [tech] in which " 기술을" does not occur, standing at a place
    that no earlier match of the rule runs into, extraction yields exactly
    the triple (Project, "프로젝트 <id>", USES_TECH, Technology,
    strip(<tech> + " 기술")). *)
Theorem uses_tech_triple_exact (isalnum : cp -> bool)
    (pre id tech post : str) :
  1 <= List.length id <= 3 -> forallb upper id = true ->
  tech <> [] -> absent 10%N tech = true ->
  occurs (u " 기술을") tech = false ->
  clear_before isalnum re_project (List.length pre)
    (pre ++ uses_tech_sentence id tech ++ post) = true ->
  exists ts,
    outcome (mock_nlp_to_triples isalnum
               (pre ++ uses_tech_sentence id tech ++ post)) = Ok ts
    /\ In (Project, u "프로젝트 " ++ id, USES_TECH, Technology,
           strip (tech ++ u " 기술")) ts.
Proof.
  intros Hlen Hid Hne Htech Hocc Hclear.
  eexists; split; [apply mock_nlp_to_triples_outcome|].
  unfold extracted; apply in_or_app; left.
  pose proof (sentence_found isalnum re_project uses_tech_of pre _ post _ _
                Hclear
                (uses_tech_sentence_match isalnum id tech post
                   Hlen Hid Hne Htech Hocc)) as Hin.
  unfold uses_tech_of at 1, triple_of in Hin; cbn [nth] in Hin.
  now rewrite (proj1 (strip_project_name isalnum id Hlen
                        (forallb_upper_class isalnum id Hid))) in Hin.
Qed.

Lemma uses_tech_triple_exact_witness :
  exists ts,
    outcome (mock_nlp_to_triples isalnum_latin_hangul
               (text_ccc ++ uses_tech_sentence (u "BB") (u "AWS Lambda")
                  ++ u " 사용")) = Ok ts
    /\ In (Project, u "프로젝트 " ++ u "BB", USES_TECH, Technology,
           strip (u "AWS Lambda" ++ u " 기술")) ts.
Proof.
  apply (uses_tech_triple_exact isalnum_latin_hangul
           text_ccc (u "BB") (u "AWS Lambda") (u " 사용"));
    try (vm_compute; reflexivity); [vm_compute; lia|discriminate].
Defined.

Lemma no_space_no_stop (suffix w2 rest : str) :
  absent 32%N w2 = true -> w2 <> [] ->
  eat (32%N :: suffix) (w2 ++ rest) = None.
Proof.
  intros Habs Hne; destruct w2 as [|a w2]; [congruence|].
  cbn [eat app]. destruct (N.eqb_spec 32 a) as [<-|]; [|reflexivity].
  apply absent_elim in Habs; exfalso; apply Habs; now left.
Qed.

Lemma absent_app_r (c : cp) (w1 w2 : str) :
  absent c (w1 ++ w2) = true -> absent c w2 = true.
Proof.
  intros H; apply absent_intro; intros Hin.
  apply (absent_elim _ _ H), in_or_app; now right.
Qed.

Lemma conducts_sentence_match isalnum (comp id post : str) :
  comp <> [] -> forallb (in_class isalnum Word) comp = true ->
  absent 32%N comp = true ->
  1 <= List.length id <= 3 -> forallb upper id = true ->
  match_at isalnum re_company_proj (conducts_sentence comp id ++ post)
  = Some ([comp ++ u " 컴퍼니"; u "프로젝트 " ++ id],
          List.length (conducts_sentence comp id)).
Proof.
  intros Hne Hcomp Hsp Hlen Hid.
  unfold match_at, re_company_proj, conducts_sentence.
  rewrite <- !app_assoc.
  cbn [rmatch].
  apply lazy_exact; [assumption|now apply forallb_word_class| |].
  - change (u " 컴퍼니에서 프로젝트 ")
      with ([32%N; 52980%N; 54140%N; 45768%N] ++ [50640%N; 49436%N; 32%N]
            ++ [54532%N; 47196%N; 51229%N; 53944%N; 32%N]).
    rewrite <- !app_assoc, !eat_app.
    apply greedy_exact;
      [lia|now apply forallb_upper_class|right; reflexivity|].
    change (u "를 수행") with [47484%N; 32%N; 49688%N; 54665%N].
    rewrite eat_app.
    f_equal; f_equal.
    + match goal with
      | |- ([] ++ [?a]) ++ [?b] = _ =>
          change ([a; b] = [comp ++ u " 컴퍼니"; u "프로젝트 " ++ id])
      end.
      f_equal; [|f_equal].
      * rewrite (app_assoc comp); apply firstn_exact.
        rewrite length_app; simpl; lia.
      * rewrite (app_assoc _ id); apply firstn_exact.
        rewrite length_app; simpl; lia.
    + rewrite !length_app; simpl; lia.
  - intros w1 w2 E H1 H2.
    change (u " 컴퍼니에서 프로젝트 ")
      with (32%N :: [52980%N; 54140%N; 45768%N] ++ [50640%N; 49436%N; 32%N]
            ++ [54532%N; 47196%N; 51229%N; 53944%N; 32%N]).
    rewrite (no_space_no_stop [52980%N; 54140%N; 45768%N] w2); auto.
    apply (absent_app_r _ w1); now rewrite <- E.
Qed.

Lemma belongs_to_stop (w1 w2 post : str) :
  occurs (u " 산업 분야의") (w1 ++ w2) = false -> w2 <> [] ->
  eat (u " 산업 분야의") (w2 ++ u " 산업 분야의" ++ post) = None.
Proof.
  intros Hocc Hne.
  assert (Hs : starts_with (u " 산업 분야의") w2 = false).
  { destruct (starts_with (u " 산업 분야의") w2) eqn:E; [|reflexivity].
    now rewrite (occurs_suffix _ w1 w2 E) in Hocc. }
  clear Hocc.
  destruct (eat (u " 산업 분야의") (w2 ++ u " 산업 분야의" ++ post))
    as [r|] eqn:E; [exfalso|reflexivity].
  apply eat_spec in E.
  change (u " 산업 분야의")
    with [32%N; 49328%N; 50629%N; 32%N; 48516%N; 50556%N; 51032%N] in *.
  destruct w2 as [|a [|b [|c [|d [|e [|f [|g w2]]]]]]]; [congruence| | | | | | |];
    simpl in E; injection E; intros; subst; discriminate.
Qed.

Lemma belongs_to_sentence_match isalnum (comp ind post : str) :
  comp <> [] -> forallb (in_class isalnum Word) comp = true ->
  absent 32%N comp = true ->
  ind <> [] -> absent 10%N ind = true ->
  occurs (u " 산업 분야의") ind = false ->
  match_at isalnum re_industry (belongs_to_sentence comp ind ++ post)
  = Some ([comp ++ u " 컴퍼니"; ind ++ u " 산업"],
          List.length (belongs_to_sentence comp ind)).
Proof.
  intros Hne Hcomp Hsp Hni Hind Hocc.
  unfold match_at, re_industry, belongs_to_sentence.
  rewrite <- !app_assoc.
  cbn [rmatch].
  apply lazy_exact; [assumption|now apply forallb_word_class| |].
  - change (u " 컴퍼니는 ")
      with ([32%N; 52980%N; 54140%N; 45768%N] ++ [45716%N; 32%N]).
    rewrite <- !app_assoc, !eat_app.
    apply lazy_exact; [assumption|now apply absent_line_feed_class| |].
    + change (u " 산업 분야의")
        with ([32%N; 49328%N; 50629%N] ++ [32%N; 48516%N; 50556%N; 51032%N]).
      rewrite <- !app_assoc, !eat_app.
      f_equal; f_equal.
      * match goal with
        | |- [] ++ [?a] ++ [?b] = _ =>
            change ([a; b] = [comp ++ u " 컴퍼니"; ind ++ u " 산업"])
        end.
        f_equal; [|f_equal].
        -- rewrite (app_assoc comp); apply firstn_exact.
           rewrite length_app; simpl; lia.
        -- rewrite (app_assoc ind); apply firstn_exact.
           rewrite length_app; simpl; lia.
      * rewrite !length_app; simpl; lia.
    + intros w1 w2 E H1 H2.
      pose proof (belongs_to_stop w1 w2 post ltac:(now rewrite <- E) H2) as Hn.
      change (u " 산업 분야의")
        with ([32%N; 49328%N; 50629%N] ++ [32%N; 48516%N; 50556%N; 51032%N])
        in Hn at 1.
      rewrite eat_app_split in Hn.
      destruct (eat [32%N; 49328%N; 50629%N] (w2 ++ u " 산업 분야의" ++ post));
        [|reflexivity].
      now rewrite Hn.
  - intros w1 w2 E H1 H2.
    change (u " 컴퍼니는 ")
      with (32%N :: [52980%N; 54140%N; 45768%N] ++ [45716%N; 32%N]).
    rewrite (no_space_no_stop [52980%N; 54140%N; 45768%N] w2); auto.
    apply (absent_app_r _ w1); now rewrite <- E.
Qed.


(** X7 -- The CONDUCTS scenario in general.  For a sentence "<comp>
    컴퍼니에서 프로젝트 <id>를 수행" with a non-empty company of word
    characters without a space and one to three capitals as [id], standing
    at a place that no earlier match of the rule runs into, extraction
    yields exactly the triple (Company, strip(<comp> + " 컴퍼니"), CONDUCTS,
    Project, "프로젝트 <id>"). *)
Theorem conducts_triple_exact (isalnum : cp -> bool)
    (pre comp id post : str) :
  comp <> [] -> forallb (in_class isalnum Word) comp = true ->
  absent 32%N comp = true ->
  1 <= List.length id <= 3 -> forallb upper id = true ->
  clear_before isalnum re_company_proj (List.length pre)
    (pre ++ conducts_sentence comp id ++ post) = true ->
  exists ts,
    outcome (mock_nlp_to_triples isalnum
               (pre ++ conducts_sentence comp id ++ post)) = Ok ts
    /\ In (Company, strip (comp ++ u " 컴퍼니"), CONDUCTS, Project,
           u "프로젝트 " ++ id) ts.
Proof.
  intros Hne Hcomp Hsp Hlen Hid Hclear.
  eexists; split; [apply mock_nlp_to_triples_outcome|].
  unfold extracted; apply in_or_app; right; apply in_or_app; left.
  pose proof (sentence_found isalnum re_company_proj conducts_of pre _ post
                _ _ Hclear
                (conducts_sentence_match isalnum comp id post
                   Hne Hcomp Hsp Hlen Hid)) as Hin.
  unfold conducts_of at 1, triple_of in Hin; cbn [nth] in Hin.
  now rewrite (proj1 (strip_project_name isalnum id Hlen
                        (forallb_upper_class isalnum id Hid))) in Hin.
Qed.

Lemma conducts_triple_exact_witness :
  exists ts,
    outcome (mock_nlp_to_triples isalnum_latin_hangul
               (u "프로젝트 BBB은 AWS 기술을 사용하며, "
                  ++ conducts_sentence (u "B") (u "BBB") ++ u "했습니다."))
    = Ok ts
    /\ In (Company, strip (u "B" ++ u " 컴퍼니"), CONDUCTS, Project,
           u "프로젝트 " ++ u "BBB") ts.
Proof.
  apply (conducts_triple_exact isalnum_latin_hangul
           (u "프로젝트 BBB은 AWS 기술을 사용하며, ") (u "B") (u "BBB")
           (u "했습니다."));
    try (vm_compute; reflexivity); [discriminate|vm_compute; lia].
Defined.

(** X8 -- The BELONGS_TO scenario in general.  For a sentence "<comp>
    컴퍼니는 <ind> 산업 분야의" with a non-empty company of word characters
    without a space and a non-empty one-line industry in which " 산업 분야의"
    does not occur, standing at a place that no earlier match of the rule
    runs into, extraction yields exactly the triple
    (Company, strip(<comp> + " 컴퍼니"), BELONGS_TO, Industry,
    strip(<ind> + " 산업")). *)
Theorem belongs_to_triple_exact (isalnum : cp -> bool)
    (pre comp ind post : str) :
  comp <> [] -> forallb (in_class isalnum Word) comp = true ->
  absent 32%N comp = true ->
  ind <> [] -> absent 10%N ind = true ->
  occurs (u " 산업 분야의") ind = false ->
  clear_before isalnum re_industry (List.length pre)
    (pre ++ belongs_to_sentence comp ind ++ post) = true ->
  exists ts,
    outcome (mock_nlp_to_triples isalnum
               (pre ++ belongs_to_sentence comp ind ++ post)) = Ok ts
    /\ In (Company, strip (comp ++ u " 컴퍼니"), BELONGS_TO, Industry,
           strip (ind ++ u " 산업")) ts.
Proof.
  intros Hne Hcomp Hsp Hni Hind Hocc Hclear.
  eexists; split; [apply mock_nlp_to_triples_outcome|].
  unfold extracted; apply in_or_app; right; apply in_or_app; right.
  exact (sentence_found isalnum re_industry belongs_to_of pre _ post
           _ _ Hclear
           (belongs_to_sentence_match isalnum comp ind post
              Hne Hcomp Hsp Hni Hind Hocc)).
Qed.

Lemma belongs_to_triple_exact_witness :
  exists ts,
    outcome (mock_nlp_to_triples isalnum_latin_hangul
               (u "서론: " ++ belongs_to_sentence (u "A") (u "금융")
                  ++ u " 선두 주자입니다."))
    = Ok ts
    /\ In (Company, strip (u "A" ++ u " 컴퍼니"), BELONGS_TO, Industry,
           strip (u "금융" ++ u " 산업")) ts.
Proof.
  apply (belongs_to_triple_exact isalnum_latin_hangul
           (u "서론: ") (u "A") (u "금융") (u " 선두 주자입니다."));
    try (vm_compute; reflexivity); discriminate.
Defined.

(** ** Where matches lie *)

Lemma scan_after isalnum r :
  forall s pos skip p cs,
    In (p, cs) (scan isalnum r pos skip s) -> pos + skip <= p.
Proof.
  induction s as [|x s IH]; intros pos skip p cs; simpl.
  - destruct skip; [|contradiction].
    destruct (match_at isalnum r []) as [[cs' n]|]; [|contradiction].
    intros [[= <- <-]|[]]; lia.
  - destruct skip as [|k].
    + destruct (match_at isalnum r (x :: s)) as [[cs' n]|].
      * intros [[= <- <-]|Hin]; [lia|]. apply IH in Hin; lia.
      * intros Hin; apply IH in Hin; lia.
    + intros Hin; apply IH in Hin; lia.
Qed.

Lemma scan_split isalnum r :
  forall s pos skip hits1 p1 cs1 rest,
    scan isalnum r pos skip s = hits1 ++ (p1, cs1) :: rest ->
    exists n,
      match_at isalnum r (skipn (p1 - pos) s) = Some (cs1, n)
      /\ forall h, In h rest -> p1 + n <= fst h.
Proof.
  induction s as [|x s IH]; intros pos skip hits1 p1 cs1 rest; simpl.
  - destruct skip;
      [|intros E; now destruct hits1].
    destruct (match_at isalnum r []) as [[cs n]|] eqn:E;
      [|intros E'; now destruct hits1].
    destruct hits1 as [|h [|h' hits1]]; try discriminate.
    intros [= <- <- <-]. exists n; split; [|intros h []].
    now rewrite skipn_nil.
  - assert (Later : forall k hs,
               scan isalnum r (S pos) k s = hs ++ (p1, cs1) :: rest ->
               exists n,
                 match_at isalnum r (skipn (p1 - pos) (x :: s)) = Some (cs1, n)
                 /\ forall h, In h rest -> p1 + n <= fst h).
    { intros k hs E.
      assert (Hp : S pos <= p1).
      { apply (scan_hit isalnum r s (S pos) k p1 cs1).
        rewrite E; apply in_or_app; right; now left. }
      destruct (IH _ _ _ _ _ _ E) as (n & Hn & Hrest).
      exists n; split; [|exact Hrest].
      replace (p1 - pos) with (S (p1 - S pos)) by lia; exact Hn. }
    destruct skip as [|k]; [|apply Later].
    destruct (match_at isalnum r (x :: s)) as [[cs n]|] eqn:E; [|apply Later].
    destruct hits1 as [|h hits1]; simpl.
    + intros [= <- <- <-]. exists n; split.
      * now rewrite Nat.sub_diag.
      * intros [q cs'] Hin; apply scan_after in Hin; simpl; lia.
    + intros [= _ E']; now apply Later in E'.
Qed.

(** X9 -- The matches of one rule do not overlap: in the list that
    [finditer] reports, every match ends at or before the offset at which
    any later match starts. *)
Theorem matches_do_not_overlap (isalnum : cp -> bool) (r : regex)
    (text : str) hits1 (p1 : nat) (cs1 : list str) hits2 :
  finditer isalnum r text = hits1 ++ (p1, cs1) :: hits2 ->
  exists n,
    match_at isalnum r (skipn p1 text) = Some (cs1, n)
    /\ Forall (fun h => p1 + n <= fst h) hits2.
Proof.
  intros E; destruct (scan_split isalnum r _ _ _ _ _ _ _ E) as (n & Hn & H).
  rewrite Nat.sub_0_r in Hn.
  exists n; split; [exact Hn|now apply Forall_forall].
Qed.

Lemma matches_do_not_overlap_witness :
  exists n,
    match_at isalnum_latin_hangul re_project (skipn 0 text_twice)
    = Some ([u "프로젝트 AAA"; u "Python 기술"], n)
    /\ Forall (fun h => 0 + n <= fst h)
         [(21, [u "프로젝트 AAA"; u "Python 기술"])].
Proof.
  apply (matches_do_not_overlap isalnum_latin_hangul re_project text_twice
           [] 0 [u "프로젝트 AAA"; u "Python 기술"]
           [(21, [u "프로젝트 AAA"; u "Python 기술"])]).
  vm_compute; reflexivity.
Defined.

(** ** Texts without the key characters *)

Lemma in_skipn_in (c : cp) (n : nat) (s : str) : In c (skipn n s) -> In c s.
Proof.
  intros H; rewrite <- (firstn_skipn n s); apply in_or_app; now right.
Qed.

Lemma findall_needs_char isalnum r (c : cp) (text : str) :
  (forall w cs, matches isalnum r w cs -> In c w) ->
  absent c text = true ->
  findall isalnum r text = [].
Proof.
  intros Hr Habs.
  destruct (findall isalnum r text) as [|cs l] eqn:E; [reflexivity|exfalso].
  assert (Hin : In cs (findall isalnum r text)) by (rewrite E; now left).
  apply in_map_iff in Hin; destruct Hin as ([p cs'] & _ & Hin).
  apply scan_hit in Hin; destruct Hin as (_ & n & Hm).
  apply match_at_sound in Hm; destruct Hm as (w & s' & Hs & Hm & _).
  apply (absent_elim _ _ Habs), (in_skipn_in c (p - 0)).
  rewrite Hs; apply in_or_app; left; eauto.
Qed.

(** X10 -- A text in which neither 프 nor 컴 occurs (any text without
    Hangul, for instance) yields no triple at all: every pattern needs
    "프로젝트 " or " 컴퍼니". *)
Theorem no_key_character_no_triple (isalnum : cp -> bool) (text : str) :
  absent 54532%N text = true -> absent 52980%N text = true ->
  mock_nlp_to_triples isalnum text
  = ([Print MsgNlpStart; Print (MsgNlpCount 0)], Ok []).
Proof.
  intros Hp Hc.
  rewrite mock_nlp_to_triples_eq; unfold extracted.
  rewrite (findall_needs_char isalnum re_project 54532%N text), 
    (findall_needs_char isalnum re_company_proj 52980%N text),
    (findall_needs_char isalnum re_industry 52980%N text); auto.
  - intros w cs H; apply re_industry_shape in H.
    destruct H as (comp & ind & _ & -> & _).
    apply in_or_app; right; apply in_or_app; left.
    vm_compute; tauto.
  - intros w cs H; apply re_company_proj_shape in H.
    destruct H as (comp & id & _ & -> & _).
    apply in_or_app; right; apply in_or_app; left.
    vm_compute; tauto.
  - intros w cs H; apply re_project_shape in H.
    destruct H as (id & tech & _ & -> & _).
    apply in_or_app; left. vm_compute; tauto.
Qed.

Lemma no_key_character_no_triple_witness :
  mock_nlp_to_triples isalnum_latin_hangul
    (u "Project AAA uses Python. 회사 소개")
  = ([Print MsgNlpStart; Print (MsgNlpCount 0)], Ok []).
Proof.
  apply (no_key_character_no_triple isalnum_latin_hangul);
    vm_compute; reflexivity.
Defined.

(** ** Escaping and composing queries *)

Lemma name_safe_head (s rest : str) : name_safe s <> apostrophe :: rest.
Proof.
  destruct s as [|c s]; [discriminate|].
  rewrite name_safe_cons.
  destruct (N.eqb_spec c apostrophe) as [->|Hc]; [discriminate|].
  intros [= E _]; contradiction.
Qed.

(** X11 -- The escaping of names is injective: two different names never
    get the same encoding, so distinct names stay distinct node keys. *)
Theorem name_safe_injective (a b : str) :
  name_safe a = name_safe b -> a = b.
Proof.
  revert b; induction a as [|c a IH]; intros [|d b].
  - reflexivity.
  - rewrite name_safe_cons; simpl.
    destruct (d =? apostrophe)%N; discriminate.
  - rewrite name_safe_cons; simpl.
    destruct (c =? apostrophe)%N; discriminate.
  - rewrite !name_safe_cons.
    destruct (N.eqb_spec c apostrophe) as [->|Hc];
      destruct (N.eqb_spec d apostrophe) as [->|Hd].
    + intros [= E]; now rewrite (IH _ E).
    + intros [= <- E]; symmetry in E; now apply name_safe_head in E.
    + intros [= -> E]; now apply name_safe_head in E.
    + intros [= -> E]; now rewrite (IH _ E).
Qed.

Lemma name_safe_injective_witness :
  u "O'Neil 컴퍼니" = u "O'Neil 컴퍼니".
Proof.
  apply (name_safe_injective (u "O'Neil 컴퍼니") (u "O'Neil 컴퍼니")).
  reflexivity.
Defined.

(** X12 -- A name without a backslash keeps its value through the
    escaping: the escaped name, followed by the closing apostrophe of the
    MERGE line, is read back by the rules of a single-quoted literal as
    exactly the name, and reading stops at that apostrophe. *)
Theorem name_without_backslash_read_back (name rest : str) :
  absent backslash name = true ->
  read_quoted (name_safe name ++ u "'})" ++ rest)
  = Some (name, u "})" ++ rest).
Proof.
  intros H; apply absent_elim in H.
  exact (name_safe_read_back name (u "})" ++ rest) H).
Qed.

Lemma name_without_backslash_read_back_witness :
  read_quoted (name_safe (u "O'Neil 컴퍼니") ++ u "'})" ++ nl)
  = Some (u "O'Neil 컴퍼니", u "})" ++ nl).
Proof.
  apply (name_without_backslash_read_back (u "O'Neil 컴퍼니") nl).
  vm_compute; reflexivity.
Defined.

Lemma join_app (sep : str) (a b : list str) :
  a <> [] -> b <> [] ->
  join sep (a ++ b) = join sep a ++ sep ++ join sep b.
Proof.
  intros Ha Hb; induction a as [|x a IH]; [congruence|].
  destruct a as [|y a].
  - simpl app. now rewrite join_cons.
  - change ((x :: y :: a) ++ b) with (x :: (y :: a) ++ b).
    rewrite !join_cons by discriminate.
    rewrite IH by discriminate. now rewrite <- !app_assoc.
Qed.

(** X13 -- Compilation distributes over concatenation: the query of two
    non-empty batches, one after the other, is the two queries joined by
    one line feed. *)
Theorem generate_cypher_query_app (a b : list Triple) :
  a <> [] -> b <> [] ->
  generate_cypher_query (a ++ b)
  = generate_cypher_query a ++ nl ++ generate_cypher_query b.
Proof.
  intros Ha Hb; unfold generate_cypher_query.
  rewrite !cypher_parts_eq, map_app.
  apply join_app; intros E; apply map_eq_nil in E; contradiction.
Qed.

Lemma generate_cypher_query_app_witness :
  generate_cypher_query ([triple_python] ++ [triple_quote])
  = generate_cypher_query [triple_python] ++ nl
    ++ generate_cypher_query [triple_quote].
Proof.
  apply (generate_cypher_query_app [triple_python] [triple_quote]);
    discriminate.
Defined.

(** ** Text acquisition *)

Lemma read_pages_texts :
  forall texts full_text,
    read_pages (map Some texts) full_text
    = ([], Ok (full_text ++ pages_text texts)).
Proof.
  induction texts as [|t texts IH]; intros full_text; simpl.
  - unfold pages_text; simpl; now rewrite app_nil_r.
  - rewrite IH; unfold pages_text; simpl.
    now rewrite <- !app_assoc.
Qed.

Lemma read_pages_without_text :
  forall pages full_text,
    In None pages -> read_pages pages full_text = ([], Raise TypeError).
Proof.
  induction pages as [|[t|] pages IH]; intros full_text; simpl.
  - contradiction.
  - intros [H|H]; [discriminate|now apply IH].
  - reflexivity.
Qed.

(** X14 -- When every page of the document has text, text acquisition
    returns the texts of the pages in order, each followed by two line
    feeds, and prints only its completion message. *)
Theorem extract_text_from_pdf_pages (w : World) (pdf_path : str)
    (texts : list str) :
  pdf_pages w pdf_path = Some (map Some texts) ->
  extract_text_from_pdf w pdf_path
  = ([Print (MsgPdfDone pdf_path)], Ok (pages_text texts)).
Proof.
  intros H; unfold extract_text_from_pdf; rewrite H.
  now rewrite read_pages_texts.
Qed.

Lemma extract_text_from_pdf_pages_witness :
  extract_text_from_pdf
    {| pdf_pages := fun _ => Some (map Some [u "one"; u "two"]);
       debug_file_ok := true; debug_flush_ok := true;
       session_run := sink_up |} report_path
  = ([Print (MsgPdfDone report_path)], Ok (pages_text [u "one"; u "two"])).
Proof.
  apply (extract_text_from_pdf_pages _ report_path [u "one"; u "two"]).
  reflexivity.
Defined.

(** X15 -- One page without text loses the whole document: when
    [extract_text] gives [None] for any page, text acquisition prints the
    PDF error and returns the empty text, whatever the other pages
    hold. *)
Theorem extract_text_from_pdf_page_without_text (w : World)
    (pdf_path : str) (pages : list (option str)) :
  pdf_pages w pdf_path = Some pages -> In None pages ->
  extract_text_from_pdf w pdf_path = ([Print MsgPdfError], Ok []).
Proof.
  intros H Hin; unfold extract_text_from_pdf; rewrite H.
  now rewrite (read_pages_without_text pages [] Hin).
Qed.

Lemma extract_text_from_pdf_page_without_text_witness :
  extract_text_from_pdf
    {| pdf_pages := fun _ => Some [Some sentence_python; None];
       debug_file_ok := true; debug_flush_ok := true;
       session_run := sink_up |} report_path
  = ([Print MsgPdfError], Ok []).
Proof.
  apply (extract_text_from_pdf_page_without_text _ report_path
           [Some sentence_python; None]);
    [reflexivity|right; now left].
Defined.

(** ** What a run does outside the process *)

Lemma outward_prints (tr : list event) :
  forallb is_print tr = true -> outward tr = [].
Proof.
  unfold outward; induction tr as [|e tr IH]; simpl; [reflexivity|].
  intros H; apply andb_true_iff in H; destruct H as [He Htr].
  rewrite He; simpl; auto.
Qed.

Lemma outward_app (a b : list event) : outward (a ++ b) = outward a ++ outward b.
Proof. apply filter_app. Qed.

(** X16 -- What a run does outside the process.  In a run that acquired
    [text], nothing but printing happens when extraction finds no triple or
    when the debug file cannot be opened.  Otherwise the run opens the
    debug file, which empties it; when the query cannot be encoded or
    cannot be flushed the run does nothing more, and the file is left
    without the query; else it writes the query to the file and then
    submits the same, non-empty, query to the sink, once. *)
Theorem pipeline_outward_effects (isalnum : cp -> bool) (w : World)
    (pdf_path text : str) :
  outcome (extract_text_from_pdf w pdf_path) = Ok text ->
  exists ts,
    outcome (mock_nlp_to_triples isalnum text) = Ok ts
    /\ outward (trace (automated_kg_pipeline isalnum w pdf_path))
       = match ts with
         | [] => []
         | _ :: _ =>
             if debug_file_ok w then
               OpenFile debug_file_name
               :: (if utf8_encodable (generate_cypher_query ts) then
                     if debug_flush_ok w then
                       [WriteFile debug_file_name (generate_cypher_query ts);
                        SinkRun (generate_cypher_query ts)]
                     else []
                   else [])
             else []
         end
    /\ (ts <> [] -> generate_cypher_query ts <> []).
Proof.
  intros Htext.
  exists (extracted isalnum text); split;
    [apply mock_nlp_to_triples_outcome|]; split.
  - destruct (pipeline_run isalnum w pdf_path) as (tr0 & text' & E & Hp & Run).
    rewrite E in Htext; simpl in Htext; injection Htext as ->.
    rewrite Run; clear Run; cbv zeta.
    pose proof (outward_prints tr0 Hp) as H0.
    destruct text as [|x text].
    { unfold trace; cbn [fst]. rewrite outward_app, H0. reflexivity. }
    destruct (extracted isalnum (x :: text)) as [|t ts] eqn:Ex.
    { unfold trace; cbn [fst]. rewrite !outward_app, H0. reflexivity. }
    destruct (debug_file_ok w);
      [destruct (utf8_encodable (generate_cypher_query (t :: ts)));
       [destruct (debug_flush_ok w);
        [destruct (session_run w (generate_cypher_query (t :: ts)))|]|]|];
      unfold trace; cbn [fst]; rewrite !outward_app, H0; reflexivity.
  - intros Hne; destruct (extracted isalnum text) as [|t ts]; [congruence|].
    unfold generate_cypher_query; rewrite cypher_parts_eq.
    destruct t as [[[[t1 n1] rel] t2] n2].
    destruct ts; simpl; discriminate.
Qed.

Lemma pipeline_outward_effects_witness :
  exists ts,
    outcome (mock_nlp_to_triples isalnum_latin_hangul
               (document_of text_surrogate)) = Ok ts
    /\ outward (trace (automated_kg_pipeline isalnum_latin_hangul
                         (world_of text_surrogate sink_up) report_path))
       = match ts with
         | [] => []
         | _ :: _ =>
             if debug_file_ok (world_of text_surrogate sink_up) then
               OpenFile debug_file_name
               :: (if utf8_encodable (generate_cypher_query ts) then
                     if debug_flush_ok (world_of text_surrogate sink_up) then
                       [WriteFile debug_file_name (generate_cypher_query ts);
                        SinkRun (generate_cypher_query ts)]
                     else []
                   else [])
             else []
         end
    /\ (ts <> [] -> generate_cypher_query ts <> []).
Proof.
  apply (pipeline_outward_effects isalnum_latin_hangul
           (world_of text_surrogate sink_up) report_path
           (document_of text_surrogate)).
  vm_compute; reflexivity.
Defined.

(** X17 -- How a run ends.  In a run that acquired [text]: when extraction
    finds no triple the run returns [None].  Otherwise the run raises
    [OSError] when the debug file cannot be opened, [UnicodeEncodeError]
    when the query holds a character UTF-8 cannot encode, [OSError] when
    the query cannot be flushed to the file; past the file, the run returns
    [None] when the sink refuses the query, and raises [AttributeError]
    when the sink returns counters, because the report reads attributes
    the counters do not have. *)
Theorem pipeline_outcome (isalnum : cp -> bool) (w : World)
    (pdf_path text : str) :
  outcome (extract_text_from_pdf w pdf_path) = Ok text ->
  exists ts,
    outcome (mock_nlp_to_triples isalnum text) = Ok ts
    /\ outcome (automated_kg_pipeline isalnum w pdf_path)
       = match ts with
         | [] => Ok None
         | _ :: _ =>
             if debug_file_ok w then
               if utf8_encodable (generate_cypher_query ts) then
                 if debug_flush_ok w then
                   match session_run w (generate_cypher_query ts) with
                   | Some _ => Raise AttributeError
                   | None => Ok None
                   end
                 else Raise OSError
               else Raise UnicodeEncodeError
             else Raise OSError
         end.
Proof.
  intros Htext.
  exists (extracted isalnum text); split;
    [apply mock_nlp_to_triples_outcome|].
  destruct (pipeline_run isalnum w pdf_path) as (tr0 & text' & E & Hp & Run).
  rewrite E in Htext; simpl in Htext; injection Htext as ->.
  rewrite Run; clear Run; cbv zeta.
  destruct text as [|x text]; [reflexivity|].
  destruct (extracted isalnum (x :: text)) as [|t ts]; [reflexivity|].
  destruct (debug_file_ok w); [|reflexivity].
  destruct (utf8_encodable (generate_cypher_query (t :: ts))); [|reflexivity].
  destruct (debug_flush_ok w); [|reflexivity].
  now destruct (session_run w (generate_cypher_query (t :: ts))).
Qed.

Lemma pipeline_outcome_witness :
  exists ts,
    outcome (mock_nlp_to_triples isalnum_latin_hangul
               (document_of sentence_python)) = Ok ts
    /\ outcome (automated_kg_pipeline isalnum_latin_hangul
                  (world_of sentence_python sink_up) report_path)
       = match ts with
         | [] => Ok None
         | _ :: _ =>
             if debug_file_ok (world_of sentence_python sink_up) then
               if utf8_encodable (generate_cypher_query ts) then
                 if debug_flush_ok (world_of sentence_python sink_up) then
                   match sink_up (generate_cypher_query ts) with
                   | Some _ => Raise AttributeError
                   | None => Ok None
                   end
                 else Raise OSError
               else Raise UnicodeEncodeError
             else Raise OSError
         end.
Proof.
  apply (pipeline_outcome isalnum_latin_hangul
           (world_of sentence_python sink_up) report_path
           (document_of sentence_python)).
  vm_compute; reflexivity.
Defined.

Lemma extract_text_from_pdf_trace (w : World) (pdf_path : str) :
  trace (extract_text_from_pdf w pdf_path) = [Print (MsgPdfDone pdf_path)]
  \/ trace (extract_text_from_pdf w pdf_path) = [Print MsgPdfError].
Proof.
  unfold extract_text_from_pdf.
  destruct (pdf_pages w pdf_path) as [pages|]; simpl; [|now right].
  pose proof (read_pages_silent pages []) as Htr.
  destruct (read_pages pages []) as [tr [t|e]]; simpl in *; subst; simpl; auto.
Qed.

(** X18 -- The report at the end of a run.  In a run that acquired [text],
    the success line is printed exactly when extraction found a triple,
    the debug file was written and the sink returned counters; the run
    then ends with [AttributeError], and the closing banner does not
    follow.  The failure line is printed exactly when, instead, the sink
    refused the query.  No run prints a count of created nodes or of
    created relationships. *)
Theorem pipeline_report_exact (isalnum : cp -> bool) (w : World)
    (pdf_path text : str) :
  outcome (extract_text_from_pdf w pdf_path) = Ok text ->
  exists ts,
    outcome (mock_nlp_to_triples isalnum text) = Ok ts
    /\ (In (Print MsgInsertOk)
          (trace (automated_kg_pipeline isalnum w pdf_path))
        <-> ts <> [] /\ debug_file_ok w = true
            /\ utf8_encodable (generate_cypher_query ts) = true
            /\ debug_flush_ok w = true
            /\ session_run w (generate_cypher_query ts) <> None)
    /\ (In (Print MsgInsertFailed)
          (trace (automated_kg_pipeline isalnum w pdf_path))
        <-> ts <> [] /\ debug_file_ok w = true
            /\ utf8_encodable (generate_cypher_query ts) = true
            /\ debug_flush_ok w = true
            /\ session_run w (generate_cypher_query ts) = None)
    /\ (In (Print MsgInsertOk)
          (trace (automated_kg_pipeline isalnum w pdf_path)) ->
        outcome (automated_kg_pipeline isalnum w pdf_path)
        = Raise AttributeError
        /\ exists tr,
             trace (automated_kg_pipeline isalnum w pdf_path)
             = tr ++ [Print MsgInsertOk])
    /\ (forall n,
           ~ In (Print (MsgNodes n))
               (trace (automated_kg_pipeline isalnum w pdf_path))
           /\ ~ In (Print (MsgRelationships n))
                  (trace (automated_kg_pipeline isalnum w pdf_path))).
Proof.
  intros Htext.
  exists (extracted isalnum text); split;
    [apply mock_nlp_to_triples_outcome|].
  destruct (pipeline_run isalnum w pdf_path) as (tr0 & text' & E & Hp & Run).
  pose proof (extract_text_from_pdf_trace w pdf_path) as Htr.
  rewrite E in Htext, Htr; simpl in Htext, Htr; injection Htext as ->.
  rewrite Run; clear Run E Hp; cbv zeta.
  destruct text as [|x text].
  { unfold trace, outcome; simpl.
    destruct Htr as [-> | ->]; simpl;
      repeat split; intros; try congruence;
      intuition discriminate. }
  destruct (extracted isalnum (x :: text)) as [|t ts].
  { unfold trace, outcome; simpl.
    destruct Htr as [-> | ->]; simpl;
      repeat split; intros; try congruence;
      intuition discriminate. }
  destruct (debug_file_ok w);
    [destruct (utf8_encodable (generate_cypher_query (t :: ts)));
     [destruct (debug_flush_ok w);
      [destruct (session_run w (generate_cypher_query (t :: ts)))
         as [c|] eqn:Hs|]|]|];
    unfold trace, outcome; simpl;
    destruct Htr as [-> | ->]; simpl;
    repeat split; intros; try congruence; try discriminate;
    try (eexists [_; _; _; _; _; _; _; _; _; _; _]; reflexivity);
    intuition (try discriminate; try congruence).
Qed.

Lemma pipeline_report_exact_witness :
  exists ts,
    outcome (mock_nlp_to_triples isalnum_latin_hangul
               (document_of sentence_python)) = Ok ts
    /\ (In (Print MsgInsertOk)
          (trace (automated_kg_pipeline isalnum_latin_hangul
                    (world_of sentence_python sink_up) report_path))
        <-> ts <> [] /\ true = true
            /\ utf8_encodable (generate_cypher_query ts) = true
            /\ true = true
            /\ sink_up (generate_cypher_query ts) <> None).
Proof.
  destruct (pipeline_report_exact isalnum_latin_hangul
              (world_of sentence_python sink_up) report_path
              (document_of sentence_python))
    as (ts & H1 & H2 & _); [vm_compute; reflexivity|].
  exists ts; split; [exact H1|exact H2].
Defined.

(** X19 -- A document without pages is read "successfully" and stops the
    run silently: the completion message of the acquisition is printed, the
    text is empty, and the run returns without extraction and without any
    further message. *)
Theorem document_without_pages (isalnum : cp -> bool) (w : World)
    (pdf_path : str) :
  pdf_pages w pdf_path = Some [] ->
  automated_kg_pipeline isalnum w pdf_path
  = ([Print MsgBanner; Print (MsgPipelineStart pdf_path); Print MsgBanner;
      Print (MsgPdfDone pdf_path)], Ok None).
Proof.
  intros H; unfold automated_kg_pipeline, extract_text_from_pdf.
  now rewrite H.
Qed.

Lemma document_without_pages_witness :
  automated_kg_pipeline isalnum_latin_hangul
    {| pdf_pages := fun _ => Some [];
       debug_file_ok := true; debug_flush_ok := true;
       session_run := sink_up |} report_path
  = ([Print MsgBanner; Print (MsgPipelineStart report_path); Print MsgBanner;
      Print (MsgPdfDone report_path)], Ok None).
Proof.
  apply (document_without_pages isalnum_latin_hangul). reflexivity.
Defined.

(** ** The script *)

Lemma pipeline_ends (isalnum : cp -> bool) (w : World) (pdf_path : str) :
  outcome (automated_kg_pipeline isalnum w pdf_path) = Ok None
  \/ exists e,
       outcome (automated_kg_pipeline isalnum w pdf_path) = Raise e
       /\ ((e = OSError
            /\ calls_sink (trace (automated_kg_pipeline isalnum w pdf_path))
               = false)
           \/ (e = UnicodeEncodeError
               /\ calls_sink (trace (automated_kg_pipeline isalnum w pdf_path))
                  = false)
           \/ (e = AttributeError
               /\ In (Print MsgInsertOk)
                    (trace (automated_kg_pipeline isalnum w pdf_path)))).
Proof.
  destruct (pipeline_run isalnum w pdf_path) as (tr0 & text & _ & Hp & Run).
  rewrite Run; cbv zeta.
  assert (H0 : calls_sink tr0 = false).
  { unfold calls_sink. clear Run.
    induction tr0 as [|e tr0 IH]; [reflexivity|].
    simpl in Hp; apply andb_true_iff in Hp; destruct Hp as [He Hp].
    destruct e; try discriminate; simpl; auto. }
  destruct text; [now left|].
  destruct (extracted isalnum _); [now left|].
  destruct (debug_file_ok w).
  - destruct (utf8_encodable _).
    + destruct (debug_flush_ok w).
      * destruct (session_run w _); [|now left].
        right; exists AttributeError; split; [reflexivity|].
        right; right; split; [reflexivity|].
        unfold trace; cbn [fst].
        apply in_or_app; right; apply in_or_app; right.
        do 5 right; now left.
      * right; exists OSError; split; [reflexivity|].
        left; split; [reflexivity|].
        unfold trace; cbn [fst].
        now rewrite !calls_sink_app, H0.
    + right; exists UnicodeEncodeError; split; [reflexivity|].
      right; left; split; [reflexivity|].
      unfold trace; cbn [fst].
      now rewrite !calls_sink_app, H0.
  - right; exists OSError; split; [reflexivity|].
    left; split; [reflexivity|].
    unfold trace; cbn [fst].
    now rewrite !calls_sink_app, H0.
Qed.

Lemma script_events_not_closed (m : Machine) (tr : list event) :
  ~ In DriverClosed
      (match sample_file m with
       | SampleDone => [SampleWritten]
       | SampleNotOpened | SampleNotFlushed => [SampleWarning]
       end ++ DriverOpened :: map Pipeline tr).
Proof.
  intros Hin; apply in_app_or in Hin; destruct Hin as [Hin|[Hin|Hin]].
  - destruct (sample_file m); simpl in Hin;
      destruct Hin as [Hin|[]]; discriminate.
  - discriminate.
  - apply in_map_iff in Hin; destruct Hin as (e & He & _); discriminate.
Qed.

(** X20 -- The script closes the driver only when the pipeline returns.
    With a driver, either the pipeline returns and closing the driver is
    the last thing the script does, or the pipeline raises, the script ends
    with that exception and the driver it opened is never closed.  The
    exception is the [OSError] or the [UnicodeEncodeError] of the debug
    file, raised before the sink was contacted, or the [AttributeError] of
    the report, raised after the sink accepted the query and the success
    line was printed.  When the script has opened the report path to write
    its sample text, and [pdfplumber] cannot read the file left there, the
    script finishes without contacting the sink. *)
Theorem script_closes_driver_unless_raised (isalnum : cp -> bool)
    (m : Machine) (w : World) :
  driver m = Some w ->
  ((snd (main isalnum m) = Finished
    /\ exists evs, fst (main isalnum m) = evs ++ [DriverClosed])
   \/ (exists e,
         snd (main isalnum m) = PipelineRaised e
         /\ In DriverOpened (fst (main isalnum m))
         /\ ~ In DriverClosed (fst (main isalnum m))
         /\ ((e = OSError
              /\ forall q, ~ In (Pipeline (SinkRun q)) (fst (main isalnum m)))
             \/ (e = UnicodeEncodeError
                 /\ forall q,
                      ~ In (Pipeline (SinkRun q)) (fst (main isalnum m)))
             \/ (e = AttributeError
                 /\ In (Pipeline (Print MsgInsertOk))
                      (fst (main isalnum m))))))
  /\ (sample_opened m = true -> overwritten_report m = None ->
      snd (main isalnum m) = Finished
      /\ forall q, ~ In (Pipeline (SinkRun q)) (fst (main isalnum m))).
Proof.
  intros Hd; split.
  - unfold main; rewrite Hd; cbv zeta.
    set (c := world_after_sample m w).
    assert (Hq : forall q,
               calls_sink (trace (automated_kg_pipeline isalnum c
                                    PDF_FILE_PATH)) = false ->
               ~ In (Pipeline (SinkRun q))
                   (match sample_file m with
                    | SampleDone => [SampleWritten]
                    | SampleNotOpened | SampleNotFlushed => [SampleWarning]
                    end
                    ++ DriverOpened
                       :: map Pipeline
                            (trace (automated_kg_pipeline isalnum c
                                      PDF_FILE_PATH)))).
    { intros q Hc Hin.
      apply in_app_or in Hin; destruct Hin as [Hin|[Hin|Hin]].
      - destruct (sample_file m); simpl in Hin;
          destruct Hin as [Hin|[]]; discriminate.
      - discriminate.
      - apply in_map_iff in Hin; destruct Hin as (e & He & Hin).
        injection He as ->.
        unfold calls_sink in Hc.
        assert (Hex : existsb (fun e => match e with
                                        | SinkRun _ => true
                                        | _ => false
                                        end)
                        (trace (automated_kg_pipeline isalnum c
                                  PDF_FILE_PATH)) = true)
          by (apply existsb_exists; exists (SinkRun q); auto).
        congruence. }
    destruct (pipeline_ends isalnum c PDF_FILE_PATH)
      as [-> | (e & -> & He)].
    + left; split; [reflexivity|]. cbn [fst].
      eexists (_ ++ DriverOpened :: map Pipeline _).
      now rewrite <- app_assoc.
    + right; exists e; split; [reflexivity|]. cbn [fst]. split; [|split].
      * apply in_or_app; right; now left.
      * apply script_events_not_closed.
      * destruct He as [[-> Hc]|[[-> Hc]|[-> Hin]]].
        -- left; split; [reflexivity|]. intros q; now apply Hq.
        -- right; left; split; [reflexivity|]. intros q; now apply Hq.
        -- right; right; split; [reflexivity|].
           apply in_or_app; right; right. now apply in_map.
  - intros Ho Hn. unfold main; rewrite Hd; cbv zeta.
    unfold world_after_sample; rewrite Ho.
    unfold automated_kg_pipeline, extract_text_from_pdf; cbn [pdf_pages].
    replace (str_eqb PDF_FILE_PATH PDF_FILE_PATH) with true
      by (vm_compute; reflexivity).
    rewrite Hn. cbn. split; [reflexivity|].
    intros q Hin.
    apply in_app_or in Hin; destruct Hin as [Hin|Hin].
    + destruct (sample_file m); simpl in Hin;
        destruct Hin as [Hin|[]]; discriminate.
    + simpl in Hin. intuition discriminate.
Qed.

Lemma script_closes_driver_unless_raised_witness :
  snd (main isalnum_latin_hangul
         {| sample_file := SampleNotOpened;
            overwritten_report := None;
            driver := Some (world_of sentence_python sink_up) |})
  = PipelineRaised AttributeError.
Proof.
  destruct (script_closes_driver_unless_raised isalnum_latin_hangul
              {| sample_file := SampleNotOpened;
                 overwritten_report := None;
                 driver := Some (world_of sentence_python sink_up) |}
              _ eq_refl) as [[[H _]|(e & H & _ & _ & He)] _].
  - vm_compute in H; discriminate.
  - destruct He as [[-> _]|[[-> _]|[-> _]]];
      try (vm_compute in H; discriminate); exact H.
Defined.

(** ** Project codes of more than three capitals *)

Lemma absent_app (c : cp) (a b : str) :
  absent c (a ++ b) = absent c a && absent c b.
Proof. unfold absent; now rewrite existsb_app, negb_orb. Qed.

Lemma only_occurrence (c : cp) (rest : str) :
  absent c rest = true ->
  forall pre p tail,
    absent c pre = true ->
    skipn p (pre ++ c :: rest) = c :: tail ->
    p = List.length pre.
Proof.
  intros Hrest; induction pre as [|y pre IH]; intros p tail Hpre E.
  - destruct p as [|p]; [reflexivity|exfalso].
    simpl in E. apply (absent_elim _ _ Hrest), (in_skipn_in c p).
    rewrite E; now left.
  - destruct p as [|p].
    + simpl in E; injection E as -> _.
      apply absent_elim in Hpre; exfalso; apply Hpre; now left.
    + simpl in *. f_equal; apply (IH p tail); auto.
      change (y :: pre) with ([y] ++ pre) in Hpre.
      rewrite absent_app in Hpre. now apply andb_true_iff in Hpre.
Qed.

Lemma upper_absent (c : cp) (id : str) :
  upper c = false -> forallb upper id = true -> absent c id = true.
Proof.
  intros Hc Hid; apply absent_intro; intros Hin.
  rewrite forallb_forall in Hid. rewrite (Hid c Hin) in Hc; discriminate.
Qed.

(** X21 -- A project code of four or more capitals is not recognised: when
    the only "프" of the text opens a sentence "프로젝트 <id>은 <tech> 기술을"
    whose code has more than three capitals, extraction yields no
    USES_TECH triple. *)
Theorem long_project_code_not_recognised (isalnum : cp -> bool)
    (pre id tech post : str) :
  4 <= List.length id -> forallb upper id = true ->
  absent 54532%N pre = true -> absent 54532%N tech = true ->
  absent 54532%N post = true ->
  exists ts,
    outcome (mock_nlp_to_triples isalnum
               (pre ++ uses_tech_sentence id tech ++ post)) = Ok ts
    /\ forallb (fun t => negb (str_eqb (relation t) USES_TECH)) ts = true.
Proof.
  intros Hlen Hid Hpre Htech Hpost.
  eexists; split; [apply mock_nlp_to_triples_outcome|].
  assert (Hnone : findall isalnum re_project
                    (pre ++ uses_tech_sentence id tech ++ post) = []).
  { destruct (findall isalnum re_project _) as [|cs l] eqn:E;
      [reflexivity|exfalso].
    assert (Hin : In cs (findall isalnum re_project
                           (pre ++ uses_tech_sentence id tech ++ post)))
      by (rewrite E; now left).
    apply in_map_iff in Hin; destruct Hin as ([p cs'] & _ & Hin).
    apply scan_hit in Hin; destruct Hin as (_ & n & Hm).
    rewrite Nat.sub_0_r in Hm.
    apply match_at_sound in Hm; destruct Hm as (w & s' & Hs & Hm & _).
    apply re_project_shape in Hm.
    destruct Hm as (id' & tech' & _ & -> & Hlen' & _ & _ & _).
    unfold uses_tech_sentence in Hs; rewrite <- !app_assoc in Hs.
    assert (Hp : p = List.length pre).
    { refine (only_occurrence 54532%N
                ([47196%N; 51229%N; 53944%N; 32%N] ++ id ++ u "은 " ++ tech
                   ++ u " 기술을" ++ post) _ pre p
                ([47196%N; 51229%N; 53944%N; 32%N] ++ id' ++ u "은 " ++ tech'
                   ++ u " 기술을" ++ s') Hpre Hs).
      rewrite !absent_app, Htech, Hpost,
        (upper_absent 54532%N id eq_refl Hid); reflexivity. }
    subst p. rewrite skipn_app, skipn_all, Nat.sub_diag in Hs.
    change (u "프로젝트 ")
      with ([54532%N; 47196%N; 51229%N; 53944%N; 32%N]) in Hs.
    change (u "은 ") with (51008%N :: [32%N]) in Hs.
    cbn [skipn app] in Hs.
    injection Hs as Hs.
    symmetry in Hs.
    apply in_long_prefix in Hs; [|lia].
    rewrite forallb_forall in Hid. specialize (Hid _ Hs); discriminate. }
  unfold extracted; rewrite Hnone; simpl app.
  rewrite forallb_app; apply andb_true_iff; split;
    apply forallb_forall; intros t Hin; apply in_map_iff in Hin;
    destruct Hin as (cs & <- & _); reflexivity.
Qed.

Lemma long_project_code_not_recognised_witness :
  exists ts,
    outcome (mock_nlp_to_triples isalnum_latin_hangul
               (u "1. " ++ uses_tech_sentence (u "ABCD") (u "Python")
                  ++ u " 사용")) = Ok ts
    /\ forallb (fun t => negb (str_eqb (relation t) USES_TECH)) ts = true.
Proof.
  apply (long_project_code_not_recognised isalnum_latin_hangul
           (u "1. ") (u "ABCD") (u "Python") (u " 사용"));
    try (vm_compute; reflexivity); vm_compute; lia.
Defined.
